(** * Client-side RAG pipeline of ProjetGMAO: a shallow embedding

    Models of
    - [cosineSimilarity] of [lib/vector-store/local-store.ts] (module [VectorStore]) and of
      [lib/document-processing/processor.ts] (module [Processor]);
    - [LocalVectorStore.search];
    - [chunkText], [chunkStructuredText], [mergeSimilarChunks] and [processStoredDocument]
      of [processor.ts];
    - [deleteDocument] of [lib/supabase/use-session.ts];
    - [MaintenanceAgent.processQuery] and [CohereClient.chat].

    JS numbers used in similarity computations are modelled as real numbers (no rounding,
    no NaN) where only comparisons of similarities matter, and the two [cosineSimilarity]
    functions also over IEEE doubles (module [JS]); indices, sizes and lengths as integers
    ([Z]); strings as [string]. *)

From Stdlib Require Import Reals Psatz.
From Stdlib Require Import List String Ascii ZArith Bool.
From Stdlib Require Import Sorting.Permutation Sorting.Sorted.
From Stdlib Require Floats.
Import ListNotations.

Open Scope R_scope.

(** ** Results of code that may throw *)

Inductive Result (A : Type) : Type :=
| Ok (a : A)
| Throw (msg : string).
Arguments Ok {A} a.
Arguments Throw {A} msg.

Definition bind_res {A B} (r : Result A) (k : A -> Result B) : Result B :=
  match r with Ok a => k a | Throw m => Throw m end.

(** ** The loop shared by both [cosineSimilarity] functions *)

Record SimAcc := mkSimAcc { dotProduct : R; normA : R; normB : R }.

(** one iteration of [for (let i = 0; i < a.length; i++)] on [(a[i], b[i])] *)
Definition sim_step (s : SimAcc) (p : R * R) : SimAcc :=
  let (x, y) := p in
  mkSimAcc (dotProduct s + x * y) (normA s + x * x) (normB s + y * y).

Definition sim_sums (a b : list R) : SimAcc :=
  fold_left sim_step (combine a b) (mkSimAcc 0 0 0).

Definition js_eqb_len (a b : list R) : bool := Nat.eqb (List.length a) (List.length b).

Module VectorStore.

(** [cosineSimilarity] of [local-store.ts] over exact reals: throws on a length mismatch,
    and returns [0] when either norm is [0]. [JS.VectorStore.cosineSimilarity] is the same
    code over doubles. *)
Definition cosineSimilarity (a b : list R) : Result R :=
  if negb (js_eqb_len a b) then Throw "Vectors must have the same length"%string
  else
    let s := sim_sums a b in
    let nA := sqrt (normA s) in
    let nB := sqrt (normB s) in
    if Req_dec_T nA 0 then Ok 0
    else if Req_dec_T nB 0 then Ok 0
    else Ok (dotProduct s / (nA * nB)).

End VectorStore.

Module Processor.

(** [cosineSimilarity] of [processor.ts] over exact reals: [0] on a length mismatch, and
    [0] when the product of the norms is [0]. [JS.Processor.cosineSimilarity] is the same
    code over doubles. *)
Definition cosineSimilarity (vecA vecB : list R) : R :=
  if negb (js_eqb_len vecA vecB) then 0
  else
    let s := sim_sums vecA vecB in
    let denominator := sqrt (normA s) * sqrt (normB s) in
    if Req_dec_T denominator 0 then 0 else dotProduct s / denominator.

End Processor.

(** ** Both [cosineSimilarity] functions over JavaScript numbers

    The same code over IEEE 754 binary64 numbers, the kernel's primitive floats: [+], [*]
    and [/] round to nearest, [Math.sqrt] is [PrimFloat.sqrt] (correctly rounded), and
    [===] is [PrimFloat.eqb] ([0 === -0] holds and [NaN] equals nothing). The modules
    [VectorStore] and [Processor] above compute the same formulas over exact reals. *)

Module JS.
Import PrimFloat.
Local Open Scope float_scope.

Record SimAcc := mkSimAcc { dotProduct : float; normA : float; normB : float }.

(** one iteration of the [for] loop on [(a[i], b[i])] *)
Definition sim_step (s : SimAcc) (p : float * float) : SimAcc :=
  let (x, y) := p in
  mkSimAcc (dotProduct s + x * y) (normA s + x * x) (normB s + y * y).

Definition sim_sums (a b : list float) : SimAcc :=
  fold_left sim_step (combine a b) (mkSimAcc 0 0 0).

Module VectorStore.

(** [cosineSimilarity] of [local-store.ts], over doubles *)
Definition cosineSimilarity (a b : list float) : Result float :=
  if negb (Nat.eqb (List.length a) (List.length b))
  then Throw "Vectors must have the same length"%string
  else
    let s := sim_sums a b in
    let nA := sqrt (normA s) in
    let nB := sqrt (normB s) in
    if (nA =? 0) || (nB =? 0) then Ok 0 else Ok (dotProduct s / (nA * nB)).

End VectorStore.

Module Processor.

(** [cosineSimilarity] of [processor.ts], over doubles *)
Definition cosineSimilarity (vecA vecB : list float) : float :=
  if negb (Nat.eqb (List.length vecA) (List.length vecB)) then 0
  else
    let s := sim_sums vecA vecB in
    let denominator := sqrt (normA s) * sqrt (normB s) in
    if denominator =? 0 then 0 else dotProduct s / denominator.

End Processor.

End JS.

(** ** JS string helpers *)

Local Open Scope string_scope.

(** [String.prototype.trim] on ASCII text: space, tab, LF, VT, FF and CR. *)
Definition is_ws (c : ascii) : bool :=
  match nat_of_ascii c with 9 | 10 | 11 | 12 | 13 | 32 => true | _ => false end.

Fixpoint drop_ws (l : list ascii) : list ascii :=
  match l with c :: l' => if is_ws c then drop_ws l' else l | [] => [] end.

Definition trim (s : string) : string :=
  string_of_list_ascii (rev (drop_ws (rev (drop_ws (list_ascii_of_string s))))).

(** [arr.join(sep)] *)
Fixpoint join (sep : string) (l : list string) : string :=
  match l with
  | [] => ""
  | [x] => x
  | x :: l' => x ++ sep ++ join sep l'
  end.

(** [s.split(/[.!?]+/)]: pieces between maximal runs of sentence punctuation. *)
Definition is_sentence_end (c : ascii) : bool :=
  match nat_of_ascii c with 33 | 46 | 63 => true | _ => false end.

(** [cur] is the piece being read (reversed), [in_run] whether the previous character
    was punctuation. *)
Fixpoint split_sentences_aux (l : list ascii) (cur : list ascii) (in_run : bool)
  : list string :=
  match l with
  | [] => [string_of_list_ascii (rev cur)]
  | c :: l' =>
      if is_sentence_end c then
        if in_run then split_sentences_aux l' cur true
        else string_of_list_ascii (rev cur) :: split_sentences_aux l' [] true
      else split_sentences_aux l' (c :: cur) false
  end.

Definition split_sentences (s : string) : list string :=
  split_sentences_aux (list_ascii_of_string s) [] false.

(** [[...new Set(l)]]: first occurrences, in order. *)
Fixpoint dedup_aux (seen : list string) (l : list string) : list string :=
  match l with
  | [] => []
  | x :: l' =>
      if existsb (String.eqb x) seen then dedup_aux seen l'
      else x :: dedup_aux (x :: seen) l'
  end.

Definition dedup (l : list string) : list string := dedup_aux [] l.

Local Close Scope string_scope.

(** ** [mergeSimilarChunks] (processor.ts) *)

Module Merge.

(** [similarity >= similarityThreshold] *)
Definition ge_threshold (similarity t : R) : bool :=
  if Rle_dec t similarity then true else false.

Definition is_processed (processed : list nat) (i : nat) : bool :=
  existsb (Nat.eqb i) processed.

(** The inner loop [for (let j = i + 1; j < chunks.length; j++)]: indices [j] not yet
    processed whose embedding has similarity to [currentEmbedding] at least the
    threshold. *)
Definition find_similar (embeddings : list (list R)) (processed : list nat)
    (currentEmbedding : list R) (t : R) (i n : nat) : list nat :=
  filter (fun j => negb (is_processed processed j) &&
                   ge_threshold (Processor.cosineSimilarity currentEmbedding
                                   (nth j embeddings [])) t)
         (seq (S i) (n - S i)).

(** [mergedText]: split the joined member texts into sentences, trim, drop empty ones,
    deduplicate, rejoin with [". "] and end with ["."]. *)
Definition merge_text (members : list string) : string :=
  (join ". " (dedup (filter (fun s => negb (String.eqb s ""))
                           (map trim (split_sentences (join " " members))))) ++ ".")%string.

(** [avgEmbedding[k] += emb[k] / similarIndices.length] for [k < emb.length].
    [avgEmbedding] has the seed's length; in the source an index past it would become
    [undefined + x] (NaN); this model keeps the seed-length prefix only (such members
    exist only when the threshold is [<= 0]). *)
Fixpoint add_scaled (avg emb : list R) (cnt : R) : list R :=
  match avg, emb with
  | a :: avg', e :: emb' => (a + e / cnt) :: add_scaled avg' emb' cnt
  | _, [] => avg
  | [], _ => []
  end.

Definition average (embeddings : list (list R)) (currentEmbedding : list R)
    (similarIndices : list nat) : list R :=
  fold_left (fun avg idx => add_scaled avg (nth idx embeddings [])
                              (INR (List.length similarIndices)))
            similarIndices (repeat 0 (List.length currentEmbedding)).

Record MergeState := mkMergeState {
  processed : list nat;
  merged : list string;
  mergedEmbeddings : list (list R)
}.

(** One iteration of the outer loop [for (let i = 0; i < chunks.length; i++)]. *)
Definition merge_step (chunks : list string) (embeddings : list (list R)) (t : R)
    (st : MergeState) (i : nat) : MergeState :=
  if is_processed (processed st) i then st
  else
    let currentChunk := nth i chunks EmptyString in
    let currentEmbedding := nth i embeddings [] in
    let similarIndices :=
      i :: find_similar embeddings (processed st) currentEmbedding t i (List.length chunks) in
    if Nat.ltb 1 (List.length similarIndices) then
      mkMergeState (processed st ++ similarIndices)
        (merged st ++ [merge_text (map (fun idx => nth idx chunks EmptyString) similarIndices)])
        (mergedEmbeddings st ++ [average embeddings currentEmbedding similarIndices])
    else
      mkMergeState (processed st ++ [i]) (merged st ++ [currentChunk])
        (mergedEmbeddings st ++ [currentEmbedding]).

Definition merge_loop (chunks : list string) (embeddings : list (list R)) (t : R)
  : MergeState :=
  fold_left (merge_step chunks embeddings t) (seq 0 (List.length chunks))
            (mkMergeState [] [] []).

Definition mergeSimilarChunks (chunks : list string) (embeddings : list (list R))
    (similarityThreshold : R) : Result (list string * list (list R)) :=
  if negb (Nat.eqb (List.length chunks) (List.length embeddings))
  then Throw "Chunks and embeddings length mismatch"%string
  else
    let st := merge_loop chunks embeddings similarityThreshold in
    Ok (merged st, mergedEmbeddings st).

End Merge.

(** ** The browser-local store (IndexedDB, [lib/client-storage]) *)

Module Doc.
(** [StoredDocument] *)
Record StoredDocument := mkStoredDocument {
  id : string;
  fileName : string;
  mimeType : string;
  size : Z;
  uploadedAt : Z;
  textContent : string;
  userId : string;
  processed : bool;
  fileData : option (list Byte.byte)
}.
End Doc.

Module Emb.
(** [StoredEmbedding] *)
Record StoredEmbedding := mkStoredEmbedding {
  id : string;
  documentId : string;
  chunkIndex : Z;
  text : string;
  embedding : list R;
  userId : string;
  createdAt : Z
}.
End Emb.

(** Each object store holds its records in primary-key order (keyPath ["id"]). *)
Record DB := mkDB {
  documents : list Doc.StoredDocument;
  embeddings : list Emb.StoredEmbedding
}.

Section KeyedStore.
Context {V : Type} (key : V -> string).

(** [store.add(item)] inserts in key order; an existing key is a [ConstraintError]. *)
Fixpoint insert_by_key (v : V) (l : list V) : list V :=
  match l with
  | [] => [v]
  | w :: l' =>
      match String.compare (key v) (key w) with
      | Gt => w :: insert_by_key v l'
      | _ => v :: l
      end
  end.

Definition has_key (k : string) (l : list V) : bool :=
  existsb (fun w => String.eqb (key w) k) l.

Definition store_add (v : V) (l : list V) : Result (list V) :=
  if has_key (key v) l then Throw "ConstraintError"%string else Ok (insert_by_key v l).

(** [store.delete(id)] *)
Definition store_delete (k : string) (l : list V) : list V :=
  filter (fun w => negb (String.eqb (key w) k)) l.

(** [store.put(item)]: replace the record with the same key, or insert it. *)
Definition store_put (v : V) (l : list V) : list V :=
  insert_by_key v (store_delete (key v) l).

(** [store.get(id)] *)
Definition store_get (k : string) (l : list V) : option V :=
  find (fun w => String.eqb (key w) k) l.

End KeyedStore.

(** [getItemsByIndex("embeddings", "userId", userId)]: records with that [userId], in
    primary-key order. *)
Definition embeddings_by_userId (db : DB) (uid : string) : list Emb.StoredEmbedding :=
  filter (fun e => String.eqb (Emb.userId e) uid) (embeddings db).

(** [getItemsByIndex("embeddings", "documentId", documentId)] *)
Definition embeddings_by_documentId (db : DB) (did : string) : list Emb.StoredEmbedding :=
  filter (fun e => String.eqb (Emb.documentId e) did) (embeddings db).

(** ** [LocalVectorStore.search] (local-store.ts) *)

Module SR.
(** [SearchResult] *)
Record SearchResult := mkSearchResult {
  id : string;
  documentId : string;
  text : string;
  similarity : R;
  chunkIndex : Z
}.
End SR.

(** [embeddings.map(...)] whose callback may throw *)
Fixpoint map_res {A B} (f : A -> Result B) (l : list A) : Result (list B) :=
  match l with
  | [] => Ok []
  | x :: l' => bind_res (f x) (fun y => bind_res (map_res f l') (fun ys => Ok (y :: ys)))
  end.

(** [results.sort((a, b) => b.similarity - a.similarity)]: a stable sort, by descending
    similarity. [insert_desc] puts [x] after every element of similarity [>=] its own. *)
Fixpoint insert_desc (x : SR.SearchResult) (l : list SR.SearchResult) : list SR.SearchResult :=
  match l with
  | [] => [x]
  | y :: l' =>
      if Rlt_dec (SR.similarity y) (SR.similarity x) then x :: l else y :: insert_desc x l'
  end.

Definition sort_desc (l : list SR.SearchResult) : list SR.SearchResult :=
  fold_left (fun acc x => insert_desc x acc) l [].

(** [arr.slice(0, k)] for an integer [k]: a negative [k] counts from the end. *)
Definition js_slice0 {A} (l : list A) (k : Z) : list A :=
  let len := Z.of_nat (List.length l) in
  let final := if (k <? 0)%Z then Z.max (len + k) 0 else Z.min k len in
  firstn (Z.to_nat final) l.

Definition search (db : DB) (queryEmbedding : list R) (userId : string) (topK : Z)
    (similarityThreshold : R) : Result (list SR.SearchResult) :=
  match embeddings_by_userId db userId with
  | [] => Ok []
  | embs =>
      bind_res
        (map_res (fun emb =>
                    bind_res (VectorStore.cosineSimilarity queryEmbedding (Emb.embedding emb))
                      (fun sim => Ok (SR.mkSearchResult (Emb.id emb) (Emb.documentId emb)
                                        (Emb.text emb) sim (Emb.chunkIndex emb))))
                 embs)
        (fun results =>
           let filtered :=
             sort_desc (filter (fun r => Merge.ge_threshold (SR.similarity r) similarityThreshold)
                               results) in
           Ok (js_slice0 filtered topK))
  end.

(** ** [chunkText] and [chunkStructuredText] (processor.ts) *)

Module Chunk.
Local Open Scope Z_scope.

(** [text.length] *)
Definition js_len (s : string) : Z := Z.of_nat (String.length s).

(** [s.slice(b, e)]: negative bounds count from the end, bounds are clamped to
    [[0, length]], and an empty range gives [""]. *)
Definition js_clamp (len i : Z) : Z :=
  if i <? 0 then Z.max (len + i) 0 else Z.min i len.

Definition js_str_slice (s : string) (b e : Z) : string :=
  let len := js_len s in
  let from := js_clamp len b in
  let to := js_clamp len e in
  if from <? to then substring (Z.to_nat from) (Z.to_nat (to - from)) s else EmptyString.

(** One turn of the [while (start < text.length)] loop of [chunkText]: either the
    loop is left with the chunks ([Done]) or it goes on from a new [start]. *)
Inductive Step := Done (chunks : list string) | Next (start : Z) (chunks : list string).

Definition chunk_step (text : string) (chunkSize overlap : Z) (start : Z)
    (chunks : list string) : Step :=
  if start <? js_len text then
    let end_ := Z.min (start + chunkSize) (js_len text) in
    let chunk := trim (js_str_slice text start end_) in
    let chunks := if 0 <? js_len chunk then chunks ++ [chunk] else chunks in
    if end_ >=? js_len text then Done chunks
    else
      let start := end_ - overlap in
      let start :=
        if start <=? Z.of_nat (List.length chunks) * (chunkSize - overlap)
        then end_ - Z.min overlap (chunkSize / 2)
        else start in
      Next start chunks
  else Done chunks.

(** The loop run for at most [fuel] turns; [None] when it has not left the loop by
    then. *)
Fixpoint chunk_loop (fuel : nat) (text : string) (chunkSize overlap : Z) (start : Z)
    (chunks : list string) : option (list string) :=
  match fuel with
  | O => None
  | S fuel =>
      match chunk_step text chunkSize overlap start chunks with
      | Done chunks => Some chunks
      | Next start chunks => chunk_loop fuel text chunkSize overlap start chunks
      end
  end.

(** [line.includes(pat)] and [line.startsWith(pat)] *)
Definition includes (line pat : string) : bool :=
  match index 0 pat line with Some _ => true | None => false end.

Definition startsWith (line pat : string) : bool := prefix pat line.

(** [text.split('\n')] *)
Fixpoint split_lines_aux (l : list ascii) (cur : list ascii) : list string :=
  match l with
  | [] => [string_of_list_ascii (rev cur)]
  | c :: l' =>
      if Ascii.eqb c "010"%char then string_of_list_ascii (rev cur) :: split_lines_aux l' []
      else split_lines_aux l' (c :: cur)
  end.

Definition split_lines (s : string) : list string :=
  split_lines_aux (list_ascii_of_string s) [].

Definition nl : string := String "010"%char EmptyString.

(** The header loop: lines up to the first one that contains ["---"] or starts with
    ["Row "]; the rest starts with that line. *)
Fixpoint take_header (lines : list string) : list string * list string :=
  match lines with
  | [] => ([], [])
  | line :: rest =>
      if includes line "---" || startsWith line "Row " then ([], lines)
      else let (h, r) := take_header rest in (line :: h, r)
  end.

Record RowState := mkRowState {
  out : list string; currentChunk : list string; currentSize : Z
}.

(** One turn of the row loop. *)
Definition row_step (header : string) (maxChunkSize : Z) (s : RowState) (line : string)
    : RowState :=
  let s :=
    if startsWith line "Row " && negb (Nat.eqb (List.length (currentChunk s)) 0)
       && (maxChunkSize <? currentSize s + js_len line + js_len header)
    then mkRowState (out s ++ [(header ++ nl ++ join nl (currentChunk s))%string]) [] 0
    else s in
  mkRowState (out s) (currentChunk s ++ [line]) (currentSize s + js_len line + 1).

Definition chunkStructuredText (text : string) (maxChunkSize : Z) : list string :=
  let (headerLines, rest) := take_header (split_lines text) in
  let header := join nl headerLines in
  let rows := match rest with
              | line :: rest' => if includes line "---" then rest' else rest
              | [] => [] end in
  let s := fold_left (row_step header maxChunkSize) rows (mkRowState [] [] 0) in
  let chunks :=
    if Nat.eqb (List.length (currentChunk s)) 0 then out s
    else out s ++ [(header ++ nl ++ join nl (currentChunk s))%string] in
  match chunks with [] => [text] | _ => chunks end.

(** [chunkText(text, chunkSize, overlap, isStructured)] with at most [fuel] turns of
    the sliding-window loop. *)
Definition chunkText_fuel (fuel : nat) (text : string) (chunkSize overlap : Z)
    (isStructured : bool) : option (list string) :=
  if isStructured then Some (chunkStructuredText text chunkSize)
  else chunk_loop fuel text chunkSize overlap 0 [].

Local Close Scope Z_scope.
End Chunk.

(** ** [processStoredDocument] (processor.ts) and [deleteDocument] (use-session.ts) *)

Module Proc.

(** What the code reads from outside the store: whether [getCohereClient()] returned a
    client, the text extracted from a stored file, the embedding service (one call per
    batch), [generateUUID()] and [Date.now()] for the [idx]-th record, and the failures
    of the store's write transactions other than a duplicate key (quota, abort): of the
    [idx]-th [addEmbedding], of the [updateDocument] saving extracted text and of the
    final [updateDocument]. *)
Record Env := mkEnv {
  client_set : bool;
  extractText : Doc.StoredDocument -> Result string;
  embed : list string -> Result (list (list R));
  generateUUID : nat -> string;
  now : nat -> Z;
  add_error : nat -> option string;
  text_update_error : option string;
  final_update_error : option string
}.

(** [ProcessingResult] *)
Record ProcessingResult := mkProcessingResult {
  documentId : string;
  fileName : string;
  chunksCreated : nat;
  embeddingsCreated : nat
}.

Definition with_text (d : Doc.StoredDocument) (t : string) : Doc.StoredDocument :=
  Doc.mkStoredDocument (Doc.id d) (Doc.fileName d) (Doc.mimeType d) (Doc.size d)
    (Doc.uploadedAt d) t (Doc.userId d) (Doc.processed d) (Doc.fileData d).

Definition with_processed (d : Doc.StoredDocument) : Doc.StoredDocument :=
  Doc.mkStoredDocument (Doc.id d) (Doc.fileName d) (Doc.mimeType d) (Doc.size d)
    (Doc.uploadedAt d) (Doc.textContent d) (Doc.userId d) true (Doc.fileData d).

(** [s.endsWith(suf)] *)
Definition endsWith (s suf : string) : bool :=
  let n := String.length s in
  let k := String.length suf in
  Nat.leb k n && String.eqb (substring (n - k) k s) suf.

Definition isCSV (d : Doc.StoredDocument) : bool :=
  String.eqb (Doc.mimeType d) "text/csv" || endsWith (Doc.fileName d) ".csv".

(** The checks before any work: client, existence, owner, not yet processed. *)
Definition load_document (env : Env) (db : DB) (did uid : string)
    : Result Doc.StoredDocument :=
  if negb (client_set env)
  then Throw "Cohere API key not set. Please provide your API key first."
  else
    match store_get Doc.id did (documents db) with
    | None => Throw "Document not found"
    | Some d =>
        if negb (String.eqb (Doc.userId d) uid)
        then Throw "Unauthorized: Document belongs to another user"
        else if Doc.processed d then Throw "Document already processed"
        else Ok d
    end.

(** Stage 1: extract the text of a stored file that has none yet and save it with
    [updateDocument]; the updated object is the one used from then on. *)
Definition extract_stage (env : Env) (db : DB) (d : Doc.StoredDocument)
    : DB * Result Doc.StoredDocument :=
  if String.eqb (Doc.textContent d) EmptyString
     && match Doc.fileData d with Some _ => true | None => false end
  then
    match extractText env d with
    | Throw m => (db, Throw m)
    | Ok t =>
        let d := with_text d t in
        match text_update_error env with
        | Some m => (db, Throw m)
        | None => (mkDB (store_put Doc.id d (documents db)) (embeddings db), Ok d)
        end
    end
  else (db, Ok d).

(** Stage 3: [for (let i = 0; i < chunks.length; i += 90)] embedding [chunks.slice(i, i +
    90)]; [n] bounds the number of batches. *)
Fixpoint embed_batches (env : Env) (n : nat) (chunks : list string)
    : Result (list (list R)) :=
  match n, chunks with
  | O, _ | _, [] => Ok []
  | S n, _ =>
      bind_res (embed env (firstn 90 chunks)) (fun es =>
      bind_res (embed_batches env n (skipn 90 chunks)) (fun rest => Ok (es ++ rest)))
  end.

(** Everything up to the merge: no embedding record is written here. *)
Definition prepare (env : Env) (db : DB) (did uid : string)
    : DB * Result (Doc.StoredDocument * (list string * list (list R))) :=
  match load_document env db did uid with
  | Throw m => (db, Throw m)
  | Ok d =>
      match extract_stage env db d with
      | (db1, Throw m) => (db1, Throw m)
      | (db1, Ok d) =>
          let textContent := Doc.textContent d in
          if String.eqb textContent EmptyString
          then (db1, Throw "Failed to extract text from document")
          else
            match Chunk.chunkText_fuel (S (String.length textContent)) textContent
                    1000 200 (isCSV d) with
            (* unreachable: [chunkText_fuel_terminates] with [200 < 1000] *)
            | None => (db1, Throw "chunkText: no progress")
            | Some chunks =>
                match embed_batches env (List.length chunks) chunks with
                | Throw m => (db1, Throw m)
                | Ok allEmbeddings =>
                    let mergeThreshold := if isCSV d then 95 / 100 else 92 / 100 in
                    match Merge.mergeSimilarChunks chunks allEmbeddings mergeThreshold with
                    | Throw m => (db1, Throw m)
                    | Ok merged => (db1, Ok (d, merged))
                    end
                end
            end
      end
  end.

(** Stage 4: [mergedChunks.map(...)] starts one [addEmbedding] transaction per merged
    chunk; the transactions run in order and each commits or fails on its own, and
    [Promise.all] rejects with the first failure. [err] is that failure so far. *)
Fixpoint add_all (env : Env) (did uid : string) (mergedEmbeddings : list (list R))
    (texts : list string) (idx : nat) (l : list Emb.StoredEmbedding) (err : option string)
    : list Emb.StoredEmbedding * option string :=
  match texts with
  | [] => (l, err)
  | text :: texts =>
      let e := Emb.mkStoredEmbedding (generateUUID env idx) did (Z.of_nat idx) text
                 (nth idx mergedEmbeddings []) uid (now env idx) in
      let (l, e_err) :=
        match add_error env idx with
        | Some m => (l, Some m)
        | None =>
            match store_add Emb.id e l with
            | Ok l => (l, None)
            | Throw m => (l, Some m)
            end
        end in
      let err := match err with Some _ => err | None => e_err end in
      add_all env did uid mergedEmbeddings texts (S idx) l err
  end.

Definition store_stage (env : Env) (db : DB) (did uid : string) (d : Doc.StoredDocument)
    (mergedChunks : list string) (mergedEmbeddings : list (list R))
    : DB * Result ProcessingResult :=
  let (l, err) := add_all env did uid mergedEmbeddings mergedChunks 0 (embeddings db) None in
  let db := mkDB (documents db) l in
  match err with
  | Some m => (db, Throw m)
  | None =>
      match final_update_error env with
      | Some m => (db, Throw m)
      | None =>
          (mkDB (store_put Doc.id (with_processed d) (documents db)) (embeddings db),
           Ok (mkProcessingResult did (Doc.fileName d) (List.length mergedChunks)
                 (List.length mergedEmbeddings)))
      end
  end.

(** [processStoredDocument(documentId, userId)]: the final store and the outcome. *)
Definition processStoredDocument (env : Env) (db : DB) (documentId userId : string)
    : DB * Result ProcessingResult :=
  match prepare env db documentId userId with
  | (db1, Throw m) => (db1, Throw m)
  | (db1, Ok (d, (mergedChunks, mergedEmbeddings))) =>
      store_stage env db1 documentId userId d mergedChunks mergedEmbeddings
  end.

(** [deleteDocument(documentId)]: delete every embedding record of the document, then the
    document. Deleting a key that is not there succeeds, so the call does not fail. *)
Definition deleteDocument (db : DB) (documentId : string) : DB * Result unit :=
  let embs := embeddings_by_documentId db documentId in
  let es := fold_left (fun l e => store_delete Emb.id (Emb.id e) l) embs (embeddings db) in
  (mkDB (store_delete Doc.id documentId (documents db)) es, Ok tt).

End Proc.

(** ** [CohereClient.chat] (cohere/client.ts) and [MaintenanceAgent.processQuery] *)

Module Agent.

(** The body of the [POST /chat] request: [documents] and [preamble] are present only
    when set; [chat_history] is never set by [processQuery] and is left out. A document
    is [{ id: `doc_${idx}`, text }], kept here as its index and its text. *)
Record ChatRequest := mkChatRequest {
  message : string;
  model : string;
  temperature : R;
  max_tokens : Z;
  preamble : option string;
  request_documents : option (list (nat * string))  (* [documents] *)
}.

Fixpoint index_docs (idx : nat) (texts : list string) : list (nat * string) :=
  match texts with [] => [] | t :: ts => (idx, t) :: index_docs (S idx) ts end.

(** The request [chat(message, context, { model, temperature, maxTokens, preamble })]
    sends. *)
Definition chat_request (message : string) (context : option (list string)) (model : string)
    (temperature : R) (maxTokens : Z) (preamble : option string) : ChatRequest :=
  mkChatRequest message model temperature maxTokens
    (match preamble with
     | Some p => if String.eqb p EmptyString then None else Some p
     | None => None
     end)
    (match context with
     | Some ((_ :: _) as c) => Some (index_docs 0 c)
     | _ => None
     end).

(** [AgentConfig] after the constructor's defaults. *)
Record AgentConfig := mkAgentConfig {
  systemPrompt : option string;
  cfg_temperature : R;
  maxTokens : Z;
  useRAG : bool;
  topK : Z;
  similarityThreshold : R
}.

(** [AgentResponse]; [None] is [undefined]. *)
Record AgentResponse := mkAgentResponse {
  response_message : string;
  sources : option (list string);
  sourceNames : option (list string)
}.

Inductive Role := user | assistant.

(** The chat-history record (db-migration.ts). *)
Record ChatMessage := mkChatMessage {
  id : string;
  userId : string;
  role : Role;
  content : string;
  timestamp : Z;
  documentIds : option (list string)
}.

(** The outside world of [processQuery]: whether a client is configured, the embedding
    service on [[query]], the chat service on a request (its [text] or the HTTP error),
    and, for the [n]-th stored message of the call, [generateUUID()], [Date.now()] and a
    failure of its [addItem] transaction other than a duplicate key. *)
Record Env := mkEnv {
  client_set : bool;
  embed_query : string -> Result (list (list R));
  chat_service : ChatRequest -> Result string;
  generateUUID : nat -> string;
  now : nat -> Z;
  message_error : nat -> option string
}.

(** [retrieveContext(query)]: [documents] and [sources] of the search results. *)
Definition retrieveContext (env : Env) (cfg : AgentConfig) (db : DB) (uid query : string)
    : Result (list string * list string) :=
  if negb (client_set env) then Ok ([], [])
  else
    bind_res (embed_query env query) (fun es =>
      match es with
      | [] => Ok ([], [])
      | queryEmbedding :: _ =>
          bind_res (search db queryEmbedding uid (topK cfg) (similarityThreshold cfg))
            (fun results =>
               Ok (map SR.text results, dedup (map SR.documentId results)))
      end).

(** [getDocumentNames(documentIds)]: the file names of the documents that exist. *)
Definition getDocumentNames (db : DB) (documentIds : list string) : list string :=
  flat_map (fun did => match store_get Doc.id did (documents db) with
                       | Some d => [Doc.fileName d]
                       | None => []
                       end) documentIds.

(** [storeMessage(role, content, documentIds)], the [n]-th of the call. *)
Definition storeMessage (env : Env) (n : nat) (uid : string) (r : Role) (c : string)
    (dids : option (list string)) (hist : list ChatMessage) : Result (list ChatMessage) :=
  match message_error env n with
  | Some m => Throw m
  | None => store_add id (mkChatMessage (generateUUID env n) uid r c (now env n) dids) hist
  end.

(** [processQuery(query)] for the agent of user [uid]: the chat history afterwards and
    the outcome. *)
Definition processQuery (env : Env) (cfg : AgentConfig) (uid : string) (db : DB)
    (hist : list ChatMessage) (query : string) : list ChatMessage * Result AgentResponse :=
  if negb (client_set env) then (hist, Throw "Cohere API key not set")
  else
    let retrieval :=
      if useRAG cfg
      then bind_res (retrieveContext env cfg db uid query) (fun '(docs, srcs) =>
             Ok (Some docs, Some srcs,
                 if Nat.ltb 0 (List.length srcs) then Some (getDocumentNames db srcs)
                 else None))
      else Ok (None, None, None) in
    match retrieval with
    | Throw m => (hist, Throw m)
    | Ok (contextDocuments, srcs, names) =>
        match chat_service env
                (chat_request query contextDocuments "command-a-03-2025"
                   (cfg_temperature cfg) (maxTokens cfg) (systemPrompt cfg)) with
        | Throw m => (hist, Throw m)
        | Ok response =>
            match storeMessage env 0 uid user query None hist with
            | Throw m => (hist, Throw m)
            | Ok hist1 =>
                match storeMessage env 1 uid assistant response srcs hist1 with
                | Throw m => (hist1, Throw m)
                | Ok hist2 => (hist2, Ok (mkAgentResponse response srcs names))
                end
            end
        end
    end.

End Agent.

(** ** Sorting with a numeric comparator *)

(** [arr.sort((a, b) => key(b) - key(a))] and [arr.sort((a, b) => key(a) - key(b))]:
    stable sorts (ES2019), as insertion sorts in which a new element goes after the
    elements it ties with. *)
Section KeySort.
Context {A : Type} (key : A -> Z).

Fixpoint insert_key_desc (x : A) (l : list A) : list A :=
  match l with
  | [] => [x]
  | y :: l' => if (key y <? key x)%Z then x :: l else y :: insert_key_desc x l'
  end.

Definition sort_key_desc (l : list A) : list A :=
  fold_left (fun acc x => insert_key_desc x acc) l [].

Fixpoint insert_key_asc (x : A) (l : list A) : list A :=
  match l with
  | [] => [x]
  | y :: l' => if (key x <? key y)%Z then x :: l else y :: insert_key_asc x l'
  end.

Definition sort_key_asc (l : list A) : list A :=
  fold_left (fun acc x => insert_key_asc x acc) l [].

End KeySort.

(** ** [uploadDocument] (processor.ts) *)

Module Upload.

(** The [File] being uploaded. *)
Record File := mkFile {
  name : string;
  type_ : string;  (* [file.type] *)
  size : Z;
  bytes : list Byte.byte  (* [await file.arrayBuffer()] *)
}.

Record UploadResult := mkUploadResult {
  documentId : string;
  fileName : string;
  result_size : Z;
  textExtracted : bool
}.

(** [uploadDocument(file, userId)] with [generateUUID()] = [documentId] and [Date.now()] =
    [now]: one [addDocument]. *)
Definition uploadDocument (documentId : string) (now : Z) (file : File) (userId : string)
    (db : DB) : DB * Result UploadResult :=
  let document := Doc.mkStoredDocument documentId (name file) (type_ file) (size file) now
                    EmptyString userId false (Some (bytes file)) in
  match store_add Doc.id document (documents db) with
  | Throw m => (db, Throw m)
  | Ok docs => (mkDB docs (embeddings db),
                Ok (mkUploadResult documentId (name file) (size file) false))
  end.

End Upload.

(** ** Document management (use-session.ts) *)

Module Manage.

(** [DocumentSummary] *)
Record DocumentSummary := mkDocumentSummary {
  id : string;
  fileName : string;
  size : Z;
  uploadedAt : Z;
  chunkCount : nat;
  previewText : string;
  processed : bool
}.

(** [getItemsByIndex("documents", "userId", userId)] *)
Definition documents_by_userId (db : DB) (uid : string) : list Doc.StoredDocument :=
  filter (fun d => String.eqb (Doc.userId d) uid) (documents db).

Definition summary (db : DB) (doc : Doc.StoredDocument) : DocumentSummary :=
  mkDocumentSummary (Doc.id doc) (Doc.fileName doc) (Doc.size doc) (Doc.uploadedAt doc)
    (List.length (embeddings_by_documentId db (Doc.id doc)))
    (Chunk.js_str_slice (Doc.textContent doc) 0 200 ++ "...")%string
    (Doc.processed doc).

(** [getUserDocuments(userId)]: newest first. *)
Definition getUserDocuments (db : DB) (uid : string) : list DocumentSummary :=
  sort_key_desc uploadedAt (map (summary db) (documents_by_userId db uid)).

(** [getDocumentDetails(documentId)]: the document and its chunks by [chunkIndex]. *)
Definition getDocumentDetails (db : DB) (did : string)
    : option (Doc.StoredDocument * list Emb.StoredEmbedding) :=
  match find (fun doc => String.eqb (Doc.id doc) did) (documents db) with
  | None => None
  | Some document =>
      Some (document, sort_key_asc Emb.chunkIndex (embeddings_by_documentId db did))
  end.






Record StorageStats := mkStorageStats {
  totalDocuments : nat;
  totalChunks : nat;
  totalSize : Z;
  oldestDocument : option Z;
  newestDocument : option Z
}.

(** [Math.min(...l)] and [Math.max(...l)] of a non-empty list; [null] for an empty one. *)
Definition list_min (l : list Z) : option Z :=
  match l with [] => None | x :: l' => Some (fold_left Z.min l' x) end.

Definition list_max (l : list Z) : option Z :=
  match l with [] => None | x :: l' => Some (fold_left Z.max l' x) end.

(** [getStorageStats(userId)] *)
Definition getStorageStats (db : DB) (uid : string) : StorageStats :=
  let docs := documents_by_userId db uid in
  let embs := embeddings_by_userId db uid in
  let uploadDates := map Doc.uploadedAt docs in
  mkStorageStats (List.length docs) (List.length embs)
    (fold_left (fun sum doc => (sum + Doc.size doc)%Z) docs 0%Z)
    (list_min uploadDates) (list_max uploadDates).

End Manage.

(** ** [LocalVectorStore.getStats] and [LocalVectorStore.multiSearch] *)

Module VS.

Record Stats := mkStats { totalEmbeddings : nat; uniqueDocuments : nat }.

(** [getStats(userId)]: [new Set(ids).size] is the number of distinct ids. *)
Definition getStats (db : DB) (uid : string) : Stats :=
  let embs := embeddings_by_userId db uid in
  mkStats (List.length embs) (List.length (dedup (map Emb.documentId embs))).

(** The [for (const result of results)] loop: results whose id was not seen yet. *)
Definition add_unique (st : list string * list SR.SearchResult) (result : SR.SearchResult)
    : list string * list SR.SearchResult :=
  let (seenIds, allResults) := st in
  if existsb (String.eqb (SR.id result)) seenIds then st
  else (SR.id result :: seenIds, allResults ++ [result]).

(** The [for (const queryEmb of queryEmbeddings)] loop. *)
Fixpoint collect (db : DB) (uid : string) (topK : Z) (thr : R) (queryEmbeddings : list (list R))
    (st : list string * list SR.SearchResult) : Result (list string * list SR.SearchResult) :=
  match queryEmbeddings with
  | [] => Ok st
  | queryEmb :: rest =>
      bind_res (search db queryEmb uid topK thr) (fun results =>
        collect db uid topK thr rest (fold_left add_unique results st))
  end.

(** [multiSearch(queryEmbeddings, userId, topK, similarityThreshold)] *)
Definition multiSearch (db : DB) (queryEmbeddings : list (list R)) (uid : string) (topK : Z)
    (thr : R) : Result (list SR.SearchResult) :=
  bind_res (collect db uid topK thr queryEmbeddings ([], [])) (fun st =>
    Ok (js_slice0 (sort_desc (snd st)) topK)).

End VS.

(** ** [MaintenanceAgent.getChatHistory] and [MaintenanceAgent.clearHistory] *)

Module History.

(** [getItemsByIndex("chat_history", "userId", userId)] *)
Definition messages_by_userId (hist : list Agent.ChatMessage) (uid : string)
    : list Agent.ChatMessage :=
  filter (fun m => String.eqb (Agent.userId m) uid) hist.

(** [getChatHistory(limit)]: newest first, then the first [limit] when [limit] is truthy
    ([undefined] is [None], and [0] is falsy), then reversed. *)
Definition getChatHistory (hist : list Agent.ChatMessage) (uid : string) (limit : option Z)
    : list Agent.ChatMessage :=
  let messages := sort_key_desc Agent.timestamp (messages_by_userId hist uid) in
  match limit with
  | Some n => if (n =? 0)%Z then rev messages else rev (js_slice0 messages n)
  | None => rev messages
  end.

(** [clearHistory()]: one [deleteItem] per message of [getChatHistory()], in turn. *)
Definition clearHistory (hist : list Agent.ChatMessage) (uid : string)
    : list Agent.ChatMessage :=
  fold_left (fun h m => store_delete Agent.id (Agent.id m) h) (getChatHistory hist uid None)
    hist.

End History.

(** ** [processStoredDocuments] (processor.ts) and [deleteDocuments] (use-session.ts) *)

Module Batch.

(** The loop of [processStoredDocuments(documentIds, userId)]: an empty id is skipped
    ([if (!docId) continue]); the first failure leaves the loop with the store as it is
    then. [env i] is the world of the call for the [i]-th id. *)
Fixpoint processStoredDocuments_loop (env : nat -> Proc.Env) (i : nat)
    (documentIds : list string) (userId : string) (db : DB)
    (results : list Proc.ProcessingResult) : DB * Result (list Proc.ProcessingResult) :=
  match documentIds with
  | [] => (db, Ok results)
  | docId :: rest =>
      if String.eqb docId EmptyString
      then processStoredDocuments_loop env (S i) rest userId db results
      else
        match Proc.processStoredDocument (env i) db docId userId with
        | (db', Throw m) => (db', Throw m)
        | (db', Ok result) =>
            processStoredDocuments_loop env (S i) rest userId db' (results ++ [result])
        end
  end.

Definition processStoredDocuments (env : nat -> Proc.Env) (documentIds : list string)
    (userId : string) (db : DB) : DB * Result (list Proc.ProcessingResult) :=
  processStoredDocuments_loop env 0 documentIds userId db [].

(** [deleteDocuments(documentIds)]: [Promise.all] of one [deleteDocument] per id. Each
    call deletes by key only the records of its own document, so the calls are run here
    one after the other. *)
Definition deleteDocuments (db : DB) (documentIds : list string) : DB * Result unit :=
  (fold_left (fun db did => fst (Proc.deleteDocument db did)) documentIds db, Ok tt).

End Batch.

(** The header and the rows that [chunkStructuredText] works on. *)
Definition structured_header (text : string) : string :=
  join Chunk.nl (fst (Chunk.take_header (Chunk.split_lines text))).

Definition structured_rows (text : string) : list string :=
  match snd (Chunk.take_header (Chunk.split_lines text)) with
  | line :: rest' => if Chunk.includes line "---" then rest' else line :: rest'
  | [] => []
  end.


(** ** Predicates used by the properties of the code below *)

(** A string made only of the characters [trim] removes. *)
Definition all_ws (s : string) : bool := forallb is_ws (list_ascii_of_string s).

(** A group of table rows whose first line starts with ["Row "]. *)
Definition row_group_ok (g : list string) : Prop :=
  exists l r, g = l :: r /\ Chunk.startsWith l "Row " = true.

(** Orders on records by an integer key. *)
Definition key_ge {A : Type} (key : A -> Z) (a b : A) : Prop := (key b <= key a)%Z.
Definition key_le {A : Type} (key : A -> Z) (a b : A) : Prop := (key a <= key b)%Z.

(** A multi-search result: above the threshold and taken from one of the user's embeddings. *)
Definition ms_ok (db : DB) (uid : string) (thr : R) (r : SR.SearchResult) : Prop :=
  thr <= SR.similarity r /\
  exists e, In e (embeddings db) /\ Emb.userId e = uid /\
            SR.documentId r = Emb.documentId e /\ SR.id r = Emb.id e.

(** The state of [VS.collect]: the seen ids are exactly the ids of the collected results,
    which are distinct and all acceptable. *)
Definition ms_inv (db : DB) (uid : string) (thr : R) (st : list string * list SR.SearchResult) : Prop :=
  NoDup (map SR.id (snd st)) /\
  (forall x, In x (fst st) <-> In x (map SR.id (snd st))) /\
  Forall (ms_ok db uid thr) (snd st).

(** Every id of [S] names a document of [uid] that is marked processed. *)
Definition done_inv (db : DB) (uid : string) (S : list string) : Prop :=
  forall did, In did S -> exists d, store_get Doc.id did (documents db) = Some d /\
                                   Doc.userId d = uid /\ Doc.processed d = true.

(** A text of 300 letters ["a"], and one of 100. *)
Definition text_a300 : string := string_of_list_ascii (repeat "a"%char 300).
Definition chunk_a100 : string := string_of_list_ascii (repeat "a"%char 100).

(** A document of 1100 letters ["a"], cut into two windows of 1000 and 300, whose
    two chunk embeddings are orthogonal, and whose second [addEmbedding] fails. *)
Definition text_a1100 : string := string_of_list_ascii (repeat "a"%char 1100).
Definition chunk_a1000 : string := string_of_list_ascii (repeat "a"%char 1000).
Definition chunk_a300 : string := string_of_list_ascii (repeat "a"%char 300).

Definition doc_c : Doc.StoredDocument :=
  Doc.mkStoredDocument "doc-1" "notes.txt" "text/plain" 1100 0 text_a1100 "user-a" false None.

Definition db_c : DB := mkDB [doc_c] [].

Definition env_c : Proc.Env :=
  Proc.mkEnv true (fun _ => Ok text_a1100) (fun _ => Ok [[1; 0]; [0; 1]]%R)
    (fun i => if Nat.eqb i 0 then "emb-0"%string else "emb-1"%string) (fun _ => 0%Z)
    (fun i => if Nat.eqb i 1 then Some "QuotaExceededError"%string else None) None None.

(** The same document, where both [addEmbedding] calls commit and the final
    [updateDocument] fails. *)
Definition env_f : Proc.Env :=
  Proc.mkEnv true (fun _ => Ok text_a1100) (fun _ => Ok [[1; 0]; [0; 1]]%R)
    (fun i => if Nat.eqb i 0 then "emb-0"%string else "emb-1"%string) (fun _ => 0%Z)
    (fun _ => None) None (Some "AbortError"%string).

(** A store with one document of [user-a] and one embedding record of it. *)
Definition db_del : DB :=
  mkDB [doc_c] [Emb.mkStoredEmbedding "emb-0" "doc-1" 0 chunk_a1000 [1; 0] "user-a" 0].

(** An agent configured with the constructor's defaults, and a world in which the
    embedding and chat services answer and every history write succeeds. *)
Definition cfg_q : Agent.AgentConfig :=
  Agent.mkAgentConfig (Some "You are a maintenance assistant."%string) (3 / 10) 2000 true 15 (35 / 100).

Definition env_q : Agent.Env :=
  Agent.mkEnv true (fun _ => Ok [[1; 0]]) (fun _ => Ok "Check the pump seals."%string)
    (fun n => if Nat.eqb n 0 then "msg-0"%string else "msg-1"%string) (fun _ => 0%Z)
    (fun _ => None).

(** A blank document of [user-a] beside [doc_c], the store once it is processed, and a
    world in which every service answers and every write succeeds. *)
Definition doc_blank : Doc.StoredDocument :=
  Doc.mkStoredDocument "doc-2" "blank.txt" "text/plain" 3 0 "   " "user-a" false None.

Definition db_blank : DB := mkDB [doc_c; doc_blank] [].

Definition db_blank_done : DB :=
  mkDB (store_put Doc.id (Proc.with_processed doc_blank) (documents db_blank)) [].

Definition env_ok : Proc.Env :=
  Proc.mkEnv true (fun _ => Ok EmptyString) (fun b => Ok (map (fun _ => [1; 0]) b))
    (fun _ => "emb"%string) (fun _ => 0%Z) (fun _ => None) None None.

(** A file uploaded as ["doc-2"] at time 5, and the document it is stored as. *)
Definition file_u : Upload.File :=
  Upload.mkFile "manual.pdf" "application/pdf" 3 [Byte.x25; Byte.x50; Byte.x44].

Definition doc_u : Doc.StoredDocument :=
  Doc.mkStoredDocument "doc-2" "manual.pdf" "application/pdf" 3 5 EmptyString "user-a" false
    (Some [Byte.x25; Byte.x50; Byte.x44]).

(** A chat history of two users. *)
Definition hist_u : list Agent.ChatMessage :=
  [Agent.mkChatMessage "msg-a" "user-a" Agent.user "Pump?" 1 None;
   Agent.mkChatMessage "msg-b" "user-b" Agent.user "Belt?" 2 None;
   Agent.mkChatMessage "msg-c" "user-a" Agent.assistant "Check the seals." 3 None].

(** The agent of [cfg_q] with retrieval turned off, and the history its query leaves. *)
Definition cfg_norag : Agent.AgentConfig :=
  Agent.mkAgentConfig None (3 / 10) 2000 false 15 (35 / 100).

Definition hist_q : list Agent.ChatMessage :=
  [Agent.mkChatMessage "msg-0" "user-a" Agent.user "Pump?" 0 None;
   Agent.mkChatMessage "msg-1" "user-a" Agent.assistant "Check the pump seals." 0 None].

(** * Theorems *)

(** ** The similarity loop *)

Fixpoint dotL (l : list (R * R)) : R :=
  match l with [] => 0 | (x, y) :: l' => x * y + dotL l' end.
Fixpoint sqL (l : list (R * R)) : R :=
  match l with [] => 0 | (x, _) :: l' => x * x + sqL l' end.
Fixpoint sqR (l : list (R * R)) : R :=
  match l with [] => 0 | (_, y) :: l' => y * y + sqR l' end.

Lemma fold_sim_step (l : list (R * R)) (s : SimAcc) :
  fold_left sim_step l s =
  mkSimAcc (dotProduct s + dotL l) (normA s + sqL l) (normB s + sqR l).
Proof.
  revert s; induction l as [|[x y] l IH]; intros [d na nb]; simpl.
  - f_equal; lra.
  - rewrite IH; simpl; f_equal; lra.
Qed.

Lemma sim_sums_eq (a b : list R) :
  sim_sums a b = mkSimAcc (dotL (combine a b)) (sqL (combine a b)) (sqR (combine a b)).
Proof. unfold sim_sums; rewrite fold_sim_step; simpl; f_equal; lra. Qed.

Fixpoint sumsq (v : list R) : R :=
  match v with [] => 0 | x :: v' => x * x + sumsq v' end.

Lemma sumsq_nonneg (v : list R) : 0 <= sumsq v.
Proof. induction v; simpl; nra. Qed.

Lemma sumsq_pos (v : list R) : (exists x, In x v /\ x <> 0) -> 0 < sumsq v.
Proof.
  induction v as [|y v IH]; simpl; intros [x [Hin Hx]]; [contradiction|].
  pose proof (sumsq_nonneg v).
  destruct Hin as [<-|Hin].
  - assert (0 < y * y) by (apply Rsqr_pos_lt; exact Hx). lra.
  - assert (0 < sumsq v) by (apply IH; eauto). nra.
Qed.

Lemma combine_self (v : list R) :
  dotL (combine v v) = sumsq v /\ sqL (combine v v) = sumsq v /\ sqR (combine v v) = sumsq v.
Proof. induction v as [|x v IH]; simpl; [lra|destruct IH as (H1 & H2 & H3); lra]. Qed.

Lemma js_eqb_len_refl (v : list R) : js_eqb_len v v = true.
Proof. apply Nat.eqb_refl. Qed.

(** [sqrt s * sqrt s] for the norm of a non-zero vector *)
Lemma sqrt_sumsq_pos (v : list R) :
  (exists x, In x v /\ x <> 0) -> 0 < sqrt (sumsq v) /\ sqrt (sumsq v) * sqrt (sumsq v) = sumsq v.
Proof.
  intros Hv; pose proof (sumsq_pos v Hv).
  split; [apply sqrt_lt_R0; lra | apply sqrt_sqrt; lra].
Qed.

Ltac sim_unfold :=
  unfold Processor.cosineSimilarity, VectorStore.cosineSimilarity;
  rewrite ?sim_sums_eq; cbn [dotProduct normA normB].

(** ** Cosine similarity over the reals *)

Lemma cos_self (v : list R) :
  (exists x, In x v /\ x <> 0) ->
  Processor.cosineSimilarity v v = 1 /\ VectorStore.cosineSimilarity v v = Ok 1.
Proof.
  intros Hv; destruct (sqrt_sumsq_pos v Hv) as [Hp Hs]; pose proof (sumsq_pos v Hv) as Hpos.
  sim_unfold; rewrite js_eqb_len_refl; simpl negb; cbv iota.
  destruct (combine_self v) as (-> & -> & ->).
  split.
  - destruct (Req_dec_T _ 0) as [E|_]; [rewrite Hs in E; lra|]. rewrite Hs; field; lra.
  - destruct (Req_dec_T _ 0) as [E|_]; [lra|].
    f_equal; rewrite Hs; field; lra.
Qed.

(** ** Both [cosineSimilarity] functions over JavaScript numbers *)

Module JSFacts.
Import PrimFloat.
Local Open Scope float_scope.

Lemma float_mul_comm (x y : float) : x * y = y * x.
Proof.
  apply FloatAxioms.Prim2SF_inj. rewrite !FloatAxioms.mul_spec.
  unfold FloatAxioms.SF64mul, SpecFloat.SFmul.
  destruct (FloatOps.Prim2SF x) as [sx|sx| |sx mx ex],
           (FloatOps.Prim2SF y) as [sy|sy| |sy my ey];
    try reflexivity;
    rewrite ?(xorb_comm sx sy), ?(Pos.mul_comm mx my), ?(Z.add_comm ex ey); reflexivity.
Qed.

(** A finite number times [0] is [0] (or [-0], which [===] does not tell apart). *)
Lemma float_mul_zero_finite (x : float) : is_finite x = true -> (x * 0 =? 0) = true.
Proof.
  unfold is_finite, is_nan, is_infinity.
  rewrite !FloatAxioms.eqb_spec, FloatAxioms.abs_spec, FloatAxioms.mul_spec.
  change (FloatOps.Prim2SF 0) with (SpecFloat.S754_zero false).
  change (FloatOps.Prim2SF infinity) with (SpecFloat.S754_infinity false).
  destruct (FloatOps.Prim2SF x) as [[]|[]| |[] m e]; cbv; intros H;
    try reflexivity; discriminate H.
Qed.

Lemma sim_sums_swap_gen (a b : list float) (d x y : float) :
  fold_left JS.sim_step (combine b a) (JS.mkSimAcc d y x) =
  JS.mkSimAcc (JS.dotProduct (fold_left JS.sim_step (combine a b) (JS.mkSimAcc d x y)))
              (JS.normB (fold_left JS.sim_step (combine a b) (JS.mkSimAcc d x y)))
              (JS.normA (fold_left JS.sim_step (combine a b) (JS.mkSimAcc d x y))).
Proof.
  revert b d x y; induction a as [|p a IH]; intros [|q b] d x y; simpl; try reflexivity.
  rewrite (float_mul_comm q p). apply IH.
Qed.

Lemma sim_sums_swap (a b : list float) :
  JS.sim_sums b a =
  JS.mkSimAcc (JS.dotProduct (JS.sim_sums a b)) (JS.normB (JS.sim_sums a b))
              (JS.normA (JS.sim_sums a b)).
Proof. apply sim_sums_swap_gen. Qed.

Lemma normA_fold (a b c : list float) (s t : JS.SimAcc) :
  List.length b = List.length a -> List.length c = List.length a ->
  JS.normA s = JS.normA t ->
  JS.normA (fold_left JS.sim_step (combine a b) s) =
  JS.normA (fold_left JS.sim_step (combine a c) t).
Proof.
  revert b c s t; induction a as [|x a IH]; intros [|y b] [|z c] s t Hb Hc H;
    simpl in *; try discriminate; [exact H|].
  apply IH; [lia|lia|]. destruct s, t; simpl in *; rewrite H; reflexivity.
Qed.

Lemma normB_zeros_gen (a : list float) (s : JS.SimAcc) :
  JS.normB s = 0 ->
  JS.normB (fold_left JS.sim_step (combine a (repeat 0 (List.length a))) s) = 0.
Proof.
  revert s; induction a as [|x a IH]; intros s H; simpl; [exact H|].
  apply IH. destruct s; simpl in *; rewrite H; reflexivity.
Qed.

Lemma normB_zeros (a : list float) :
  JS.normB (JS.sim_sums a (repeat 0 (List.length a))) = 0.
Proof. apply normB_zeros_gen; reflexivity. Qed.

Lemma normA_zeros (a : list float) :
  JS.normA (JS.sim_sums (repeat 0 (List.length a)) a) = 0.
Proof.
  rewrite (sim_sums_swap a). simpl. apply normB_zeros.
Qed.

Lemma normB_zeros_l (v : list float) :
  JS.normB (JS.sim_sums (repeat 0 (List.length v)) v) = JS.normA (JS.sim_sums v v).
Proof.
  rewrite (sim_sums_swap v). simpl. unfold JS.sim_sums.
  apply normA_fold; [apply repeat_length|reflexivity|reflexivity].
Qed.

Lemma normA_same (v : list float) :
  JS.normA (JS.sim_sums v (repeat 0 (List.length v))) = JS.normA (JS.sim_sums v v).
Proof. unfold JS.sim_sums. apply normA_fold; [apply repeat_length|reflexivity|reflexivity]. Qed.

(** C6 (corrected). Over JavaScript numbers: both functions are symmetric,
    [similarity(a, b) = similarity(b, a)] exactly (the store's version also agrees on
    throwing). The store's version gives [similarity(v, 0) = similarity(0, v) = 0] for
    every [v] of the same length, never [NaN]. The merger's version gives [0] there when
    [Math.sqrt] of the squared norm the loop computes for [v] is finite. The exact values
    [similarity(v, v) = 1] and [similarity(v, -v) = -1] fail (see
    [cosine_js_rounding]). *)
Theorem cosine_similarity_js :
  (forall a b,
     JS.Processor.cosineSimilarity a b = JS.Processor.cosineSimilarity b a /\
     JS.VectorStore.cosineSimilarity a b = JS.VectorStore.cosineSimilarity b a) /\
  (forall v,
     JS.VectorStore.cosineSimilarity v (repeat 0 (List.length v)) = Ok 0 /\
     JS.VectorStore.cosineSimilarity (repeat 0 (List.length v)) v = Ok 0) /\
  (forall v, is_finite (sqrt (JS.normA (JS.sim_sums v v))) = true ->
     JS.Processor.cosineSimilarity v (repeat 0 (List.length v)) = 0 /\
     JS.Processor.cosineSimilarity (repeat 0 (List.length v)) v = 0).
Proof.
  split; [|split].
  - intros a b. unfold JS.Processor.cosineSimilarity, JS.VectorStore.cosineSimilarity.
    rewrite (Nat.eqb_sym (List.length b) (List.length a)).
    destruct (Nat.eqb (List.length a) (List.length b)); simpl negb; cbv iota;
      [|split; reflexivity].
    rewrite (sim_sums_swap a b). cbv zeta. cbn [JS.dotProduct JS.normA JS.normB].
    rewrite (float_mul_comm (sqrt (JS.normB (JS.sim_sums a b)))),
            (orb_comm (sqrt (JS.normB (JS.sim_sums a b)) =? 0)).
    split; reflexivity.
  - intros v. unfold JS.VectorStore.cosineSimilarity.
    rewrite repeat_length, Nat.eqb_refl. cbv zeta.
    rewrite normB_zeros, normA_zeros.
    change (sqrt 0 =? 0) with true. rewrite orb_true_r. split; reflexivity.
  - intros v H. unfold JS.Processor.cosineSimilarity.
    rewrite repeat_length, Nat.eqb_refl. cbv zeta. simpl negb; cbv iota.
    rewrite normB_zeros, normA_zeros, normB_zeros_l, normA_same.
    change (sqrt 0) with 0.
    rewrite (float_mul_comm 0 (sqrt (JS.normA (JS.sim_sums v v)))).
    rewrite (float_mul_zero_finite _ H).
    split; reflexivity.
Qed.

Lemma cosine_similarity_js_witness :
  is_finite (sqrt (JS.normA (JS.sim_sums [3; 4] [3; 4]))) = true /\
  JS.Processor.cosineSimilarity [3; 4] [0; 0] = 0.
Proof.
  assert (H : is_finite (sqrt (JS.normA (JS.sim_sums [3; 4] [3; 4]))) = true)
    by (vm_compute; reflexivity).
  split; [exact H|exact (proj1 (proj2 (proj2 cosine_similarity_js) [3; 4] H))].
Defined.

(** C6, counterexample: rounding. For [v = [2, -1]] both functions give
    [similarity(v, v) = 0.9999999999999998] (the double [0x1.ffffffffffffep-1]) and
    [similarity(v, -v) = -0.9999999999999998], so [similarity(v, v) === 1] is false. For
    [v = [2^-600]] the square underflows to [0], and both give [similarity(v, v) = 0]. For
    [v = [2^700]] the square overflows to [Infinity], [Infinity * 0] is [NaN], and the
    merger's [similarity(v, [0])] is [NaN]. *)
Lemma cosine_js_rounding :
  JS.VectorStore.cosineSimilarity [2; -1] [2; -1] = Ok 0x1.ffffffffffffep-1 /\
  JS.VectorStore.cosineSimilarity [2; -1] [-2; 1] = Ok (-0x1.ffffffffffffep-1) /\
  JS.Processor.cosineSimilarity [2; -1] [2; -1] = 0x1.ffffffffffffep-1 /\
  JS.Processor.cosineSimilarity [2; -1] [-2; 1] = -0x1.ffffffffffffep-1 /\
  (JS.Processor.cosineSimilarity [2; -1] [2; -1] =? 1) = false /\
  JS.VectorStore.cosineSimilarity [0x1p-600] [0x1p-600] = Ok 0 /\
  JS.Processor.cosineSimilarity [0x1p-600] [0x1p-600] = 0 /\
  is_nan (JS.Processor.cosineSimilarity [0x1p700] [0]) = true.
Proof. repeat split; vm_compute; reflexivity. Qed.

End JSFacts.

(** ** The Redundancy Merger *)

Lemma ge_threshold_true (x t : R) : Merge.ge_threshold x t = true <-> t <= x.
Proof.
  unfold Merge.ge_threshold; destruct (Rle_dec t x); split; intros; auto; discriminate || contradiction.
Qed.

Lemma find_similar_spec embeddings processed cur t i n j :
  In j (Merge.find_similar embeddings processed cur t i n) <->
  (i < j < n)%nat /\ Merge.is_processed processed j = false /\
  t <= Processor.cosineSimilarity cur (nth j embeddings []).
Proof.
  unfold Merge.find_similar; rewrite filter_In, in_seq, andb_true_iff, negb_true_iff,
    ge_threshold_true.
  split; intros [H1 H2]; [split; [lia|exact H2]|split; [lia|exact H2]].
Qed.

Lemma merge_two (c1 c2 : string) (e1 e2 : list R) (t : R) :
  Merge.mergeSimilarChunks [c1; c2] [e1; e2] t =
  if Merge.ge_threshold (Processor.cosineSimilarity e1 e2) t
  then Ok ([Merge.merge_text [c1; c2]], [Merge.average [e1; e2] e1 [0; 1]%nat])
  else Ok ([c1; c2], [e1; e2]).
Proof.
  destruct (Merge.ge_threshold (Processor.cosineSimilarity e1 e2) t) eqn:E;
    unfold Merge.mergeSimilarChunks, Merge.merge_loop, Merge.merge_step, Merge.find_similar;
    simpl; rewrite ?E; reflexivity.
Qed.

(** Two embeddings with cosine similarity exactly [0.9]. *)
Lemma cos_exactly_090 :
  Processor.cosineSimilarity [1; 0] [9/10; sqrt (19/100)] = 9/10.
Proof.
  assert (Hs : sqrt (19/100) * sqrt (19/100) = 19/100) by (apply sqrt_sqrt; lra).
  sim_unfold; simpl.
  replace (1 * 1 + (0 * 0 + 0)) with 1 by ring.
  replace (9 / 10 * (9 / 10) + (sqrt (19 / 100) * sqrt (19 / 100) + 0)) with 1 by lra.
  rewrite sqrt_1, Rmult_1_l.
  destruct (Req_dec_T 1 0); [lra|].
  field.
Qed.

(** C8. The merge boundary is inclusive: a later, not yet processed chunk [j] is
    collected into the cluster of seed [i] exactly when its cosine similarity to the seed
    is at least the threshold; so two chunks whose embeddings have similarity exactly
    [0.90] are merged into one at threshold [0.90] and kept apart at [0.901]. *)
Theorem merge_threshold_inclusive :
  (forall embeddings processed cur t i n j,
     In j (Merge.find_similar embeddings processed cur t i n) <->
     (i < j < n)%nat /\ Merge.is_processed processed j = false /\
     t <= Processor.cosineSimilarity cur (nth j embeddings [])) /\
  (forall c1 c2 e1 e2,
     Processor.cosineSimilarity e1 e2 = 9/10 ->
     (exists e, Merge.mergeSimilarChunks [c1; c2] [e1; e2] (9/10) =
                Ok ([Merge.merge_text [c1; c2]], [e])) /\
     Merge.mergeSimilarChunks [c1; c2] [e1; e2] (901/1000) = Ok ([c1; c2], [e1; e2])).
Proof.
  split; [exact find_similar_spec|].
  intros c1 c2 e1 e2 Hc; rewrite !merge_two, Hc.
  split.
  - assert (Merge.ge_threshold (9/10) (9/10) = true) as -> by (apply ge_threshold_true; lra).
    eexists; reflexivity.
  - destruct (Merge.ge_threshold (9/10) (901/1000)) eqn:E; [|reflexivity].
    apply ge_threshold_true in E; lra.
Qed.

Lemma merge_threshold_inclusive_witness :
  (exists e, Merge.mergeSimilarChunks ["A"%string; "B"%string] [[1; 0]; [9/10; sqrt (19/100)]] (9/10) =
             Ok ([Merge.merge_text ["A"%string; "B"%string]], [e])) /\
  Merge.mergeSimilarChunks ["A"%string; "B"%string] [[1; 0]; [9/10; sqrt (19/100)]] (901/1000) =
  Ok (["A"%string; "B"%string], [[1; 0]; [9/10; sqrt (19/100)]]).
Proof.
  apply (proj2 merge_threshold_inclusive).
  apply cos_exactly_090.
Defined.

Lemma merge_three_first_pair (c1 c2 c3 : string) (e1 e2 e3 : list R) (t : R) :
  Merge.ge_threshold (Processor.cosineSimilarity e1 e2) t = true ->
  Merge.ge_threshold (Processor.cosineSimilarity e1 e3) t = false ->
  Merge.mergeSimilarChunks [c1; c2; c3] [e1; e2; e3] t =
  Ok ([Merge.merge_text [c1; c2]; c3], [Merge.average [e1; e2; e3] e1 [0; 1]%nat; e3]).
Proof.
  intros E1 E2.
  unfold Merge.mergeSimilarChunks, Merge.merge_loop, Merge.merge_step, Merge.find_similar;
    simpl; rewrite E1, E2; simpl; reflexivity.
Qed.

(** Deciding [t <= similarity] on non-zero vectors by squaring. *)
Lemma cos_ge_iff (a b : list R) (t : R) :
  js_eqb_len a b = true -> 0 < t -> 0 < sqL (combine a b) -> 0 < sqR (combine a b) ->
  (t <= Processor.cosineSimilarity a b <->
   0 <= dotL (combine a b) /\
   t * t * (sqL (combine a b) * sqR (combine a b)) <= dotL (combine a b) * dotL (combine a b)).
Proof.
  intros Hl Ht Hx Hy; sim_unfold; rewrite Hl; simpl negb; cbv iota.
  set (d := dotL (combine a b)) in *; set (x := sqL (combine a b)) in *;
  set (y := sqR (combine a b)) in *.
  assert (Sx : 0 < sqrt x) by (apply sqrt_lt_R0; lra).
  assert (Sy : 0 < sqrt y) by (apply sqrt_lt_R0; lra).
  assert (Qx : sqrt x * sqrt x = x) by (apply sqrt_sqrt; lra).
  assert (Qy : sqrt y * sqrt y = y) by (apply sqrt_sqrt; lra).
  set (S := sqrt x * sqrt y).
  assert (HS : 0 < S) by (unfold S; nra).
  assert (HS2 : S * S = x * y)
    by (unfold S; transitivity ((sqrt x * sqrt x) * (sqrt y * sqrt y)); [ring|rewrite Qx, Qy; reflexivity]).
  destruct (Req_dec_T S 0) as [E|_]; [lra|].
  assert (Hu : S * / S = 1) by (field; lra).
  assert (Hu' : 0 < / S) by (apply Rinv_0_lt_compat; lra).
  unfold Rdiv; set (u := / S) in *.
  split.
  - intros H.
    assert (H1 : t * S <= d) by (replace d with (d * u * S) by (rewrite Rmult_assoc, (Rmult_comm u S), Hu; ring); nra).
    assert (0 <= t * S) by nra.
    split; [lra|]. rewrite <- HS2. nra.
  - intros [Hd H].
    assert (H1 : t * S <= d).
    { destruct (Rle_dec (t * S) d) as [|Hn]; [assumption|].
      exfalso. assert (d < t * S) by lra. assert (0 <= t * S) by nra. nra. }
    replace t with (t * S * u) by (rewrite Rmult_assoc, Hu; ring). nra.
Qed.

(** ** A concrete run of two merge passes (threshold [0.9]) *)

Lemma ge_a_b : Merge.ge_threshold (Processor.cosineSimilarity [1; 0] [1; 2/5]) (9/10) = true.
Proof.
  apply ge_threshold_true, cos_ge_iff; simpl; try reflexivity; try lra.
Qed.

Lemma ge_a_c : Merge.ge_threshold (Processor.cosineSimilarity [1; 0] [1; 3/5]) (9/10) = false.
Proof.
  destruct (Merge.ge_threshold _ _) eqn:E; [|reflexivity].
  apply ge_threshold_true, cos_ge_iff in E; simpl in *; try reflexivity; try lra.
Qed.

Lemma average_a_b :
  Merge.average [[1; 0]; [1; 2/5]; [1; 3/5]] [1; 0] [0; 1]%nat = [1; 1/5].
Proof.
  unfold Merge.average; simpl.
  replace (1 + 1) with 2 by ring.
  f_equal; [|f_equal]; field.
Qed.

Lemma ge_ab_c : Merge.ge_threshold (Processor.cosineSimilarity [1; 1/5] [1; 3/5]) (9/10) = true.
Proof.
  apply ge_threshold_true, cos_ge_iff; simpl; try reflexivity; try lra.
Qed.

(** C5 counterexample: at threshold [0.9], the first pass over the embeddings
    [[1,0], [1,0.4], [1,0.6]] merges the first two (similarity ~0.928) and keeps the third
    (similarity ~0.857 to the seed); the averaged vector [[1,0.2]] has similarity ~0.942 to
    [[1,0.6]], so a second pass on the output merges its two chunks into one. *)
Lemma merge_second_pass_reduces :
  Merge.mergeSimilarChunks ["A"; "B"; "C"]%string [[1; 0]; [1; 2/5]; [1; 3/5]] (9/10) =
    Ok ([Merge.merge_text ["A"; "B"]%string; "C"%string], [[1; 1/5]; [1; 3/5]]) /\
  Merge.mergeSimilarChunks [Merge.merge_text ["A"; "B"]%string; "C"%string]
      [[1; 1/5]; [1; 3/5]] (9/10) =
    Ok ([Merge.merge_text [Merge.merge_text ["A"; "B"]%string; "C"%string]],
        [Merge.average [[1; 1/5]; [1; 3/5]] [1; 1/5] [0; 1]%nat]).
Proof.
  split.
  - rewrite merge_three_first_pair by (apply ge_a_b || apply ge_a_c).
    rewrite average_a_b; reflexivity.
  - rewrite merge_two, ge_ab_c; reflexivity.
Qed.

(** ** Chunk count of one merge pass *)

Lemma is_processed_In (p : list nat) (i : nat) : Merge.is_processed p i = true <-> In i p.
Proof.
  unfold Merge.is_processed; rewrite existsb_exists; split.
  - intros [x [Hx E]]; apply Nat.eqb_eq in E; subst; exact Hx.
  - intros H; exists i; split; [exact H|apply Nat.eqb_refl].
Qed.

Lemma firstn_S_snoc {A} (l : list A) (k : nat) (d : A) :
  (k < List.length l)%nat -> firstn (S k) l = firstn k l ++ [nth k l d].
Proof.
  revert k; induction l as [|x l IH]; intros [|k] Hk; simpl in *; try lia; [reflexivity|].
  rewrite IH by lia; reflexivity.
Qed.

Definition merge_inv (chunks : list string) (embeddings : list (list R)) (n k : nat)
    (st : Merge.MergeState) : Prop :=
  NoDup (Merge.processed st) /\
  (forall j, (j < k)%nat -> In j (Merge.processed st)) /\
  (forall j, In j (Merge.processed st) -> (j < n)%nat) /\
  (List.length (Merge.merged st) <= List.length (Merge.processed st))%nat /\
  (List.length (Merge.processed st) = List.length (Merge.merged st) ->
     Merge.processed st = seq 0 k /\ Merge.merged st = firstn k chunks /\
     Merge.mergedEmbeddings st = firstn k embeddings).

Lemma merge_inv_step chunks embeddings t k st :
  List.length chunks = List.length embeddings -> (k < List.length chunks)%nat ->
  merge_inv chunks embeddings (List.length chunks) k st ->
  merge_inv chunks embeddings (List.length chunks) (S k)
    (Merge.merge_step chunks embeddings t st k).
Proof.
  unfold merge_inv; intros Hlen Hk (Hnd & Hlow & Hup & Hle & Heq).
  unfold Merge.merge_step.
  destruct (Merge.is_processed (Merge.processed st) k) eqn:P.
  - apply is_processed_In in P.
    split; [exact Hnd|].
    split; [intros j Hj; destruct (Nat.eq_dec j k); [subst; exact P|apply Hlow; lia]|].
    split; [exact Hup|]. split; [exact Hle|].
    intros E; destruct (Heq E) as [Hs _]; rewrite Hs, in_seq in P; lia.
  - assert (Pk : ~ In k (Merge.processed st)) by (rewrite <- is_processed_In; congruence).
    set (fs := Merge.find_similar embeddings (Merge.processed st) (nth k embeddings []) t k
                 (List.length chunks)).
    assert (Hfs : forall j, In j fs ->
              (k < j < List.length chunks)%nat /\ ~ In j (Merge.processed st)).
    { intros j Hj; apply find_similar_spec in Hj as (H1 & H2 & _).
      split; [exact H1|rewrite <- is_processed_In; congruence]. }
    assert (Hndfs : NoDup fs) by (apply NoDup_filter, seq_NoDup).
    destruct (Nat.ltb 1 (List.length (k :: fs))) eqn:L; cbn [Merge.processed Merge.merged Merge.mergedEmbeddings].
    + apply Nat.ltb_lt in L; simpl in L.
      split.
      { apply NoDup_app; [exact Hnd| |].
        - constructor; [intros Hin; apply Hfs in Hin; lia|exact Hndfs].
        - intros a Ha [<-|Hin]; [contradiction|apply Hfs in Hin as [_ Hn]; contradiction]. }
      split; [intros j Hj; apply in_or_app; destruct (Nat.eq_dec j k);
              [right; left; auto|left; apply Hlow; lia]|].
      split; [intros j Hj; apply in_app_or in Hj as [Hj|[<-|Hj]];
              [auto|lia|apply Hfs in Hj; lia]|].
      rewrite !length_app; simpl.
      split; [lia|intros E; lia].
    + apply Nat.ltb_ge in L; simpl in L.
      split.
      { apply NoDup_app; [exact Hnd|constructor; [auto|constructor]|].
        intros a Ha [<-|[]]; contradiction. }
      split; [intros j Hj; apply in_or_app; destruct (Nat.eq_dec j k);
              [right; left; auto|left; apply Hlow; lia]|].
      split; [intros j Hj; apply in_app_or in Hj as [Hj|[<-|[]]]; [auto|lia]|].
      rewrite !length_app; cbn [List.length].
      split; [lia|].
      intros E; destruct Heq as (H1 & H2 & H3); [lia|].
      rewrite H1, H2, H3, seq_S, (firstn_S_snoc chunks k EmptyString),
        (firstn_S_snoc embeddings k []) by lia.
      auto.
Qed.

Lemma merge_inv_fold chunks embeddings t k :
  List.length chunks = List.length embeddings -> (k <= List.length chunks)%nat ->
  merge_inv chunks embeddings (List.length chunks) k
    (fold_left (Merge.merge_step chunks embeddings t) (seq 0 k) (Merge.mkMergeState [] [] [])).
Proof.
  intros Hlen; induction k as [|k IH]; intros Hk.
  - unfold merge_inv; simpl; repeat split; try constructor; intros; try lia; contradiction.
  - rewrite seq_S, fold_left_app; simpl.
    apply merge_inv_step; [exact Hlen|lia|apply IH; lia].
Qed.

Lemma merge_loop_inv chunks embeddings t :
  List.length chunks = List.length embeddings ->
  let st := Merge.merge_loop chunks embeddings t in
  (List.length (Merge.merged st) <= List.length chunks)%nat /\
  (List.length (Merge.merged st) = List.length chunks ->
   Merge.merged st = chunks /\ Merge.mergedEmbeddings st = embeddings).
Proof.
  intros Hlen st.
  destruct (merge_inv_fold chunks embeddings t (List.length chunks) Hlen (le_n _))
    as (Hnd & Hlow & Hup & Hle & Heq).
  fold (Merge.merge_loop chunks embeddings t) in *; fold st in Hnd, Hlow, Hup, Hle, Heq.
  assert (Hp : List.length (Merge.processed st) = List.length chunks).
  { apply Nat.le_antisymm.
    - rewrite <- (length_seq (List.length chunks) 0).
      apply NoDup_incl_length; [exact Hnd|].
      intros j Hj; apply in_seq; specialize (Hup j Hj); lia.
    - rewrite <- (length_seq (List.length chunks) 0) at 1.
      apply NoDup_incl_length; [apply seq_NoDup|].
      intros j Hj; apply in_seq in Hj; apply Hlow; lia. }
  split; [lia|].
  intros E; destruct Heq as (_ & H2 & H3); [lia|].
  rewrite H2, H3, Hlen, !firstn_all, <- Hlen, firstn_all; split; reflexivity.
Qed.

(** C5 (corrected). A merge pass never increases the number of chunks; and when a pass
    returns as many chunks as it received, it merged nothing: it returned its input
    unchanged, so a second pass on its output (same threshold) changes nothing further.
    (In general a second pass can merge further: see [merge_second_pass_reduces].) *)
Theorem merge_pass_count_and_fixpoint :
  forall chunks embeddings t chunks' embeddings',
    Merge.mergeSimilarChunks chunks embeddings t = Ok (chunks', embeddings') ->
    (List.length chunks' <= List.length chunks)%nat /\
    (List.length chunks' = List.length chunks ->
       chunks' = chunks /\ embeddings' = embeddings /\
       Merge.mergeSimilarChunks chunks' embeddings' t = Ok (chunks', embeddings')).
Proof.
  intros chunks embeddings t c' e' H.
  pose proof H as H0.
  unfold Merge.mergeSimilarChunks in H.
  destruct (Nat.eqb (List.length chunks) (List.length embeddings)) eqn:L; simpl in H;
    [|discriminate].
  apply Nat.eqb_eq in L; injection H as <- <-.
  destruct (merge_loop_inv chunks embeddings t L) as [H1 H2].
  split; [exact H1|].
  intros E; destruct (H2 E) as [E1 E2]; rewrite E1, E2 in *; auto.
Qed.

Lemma merge_pass_count_and_fixpoint_witness :
  Merge.mergeSimilarChunks ["Pump A."%string] [[1; 0]] (9/10) = Ok (["Pump A."%string], [[1; 0]]) /\
  Merge.mergeSimilarChunks ["Pump A."%string] [[1; 0]] (9/10) = Ok (["Pump A."%string], [[1; 0]]).
Proof.
  assert (H : Merge.mergeSimilarChunks ["Pump A."%string] [[1; 0]] (9/10) =
              Ok (["Pump A."%string], [[1; 0]])) by reflexivity.
  destruct (merge_pass_count_and_fixpoint _ _ _ _ _ H) as [_ Hfix].
  destruct (Hfix eq_refl) as (_ & _ & H2).
  split; [exact H|exact H2].
Defined.

(** ** Length mismatches in the two similarity functions *)

Lemma cos_len_mismatch (a b : list R) :
  List.length a <> List.length b ->
  Processor.cosineSimilarity a b = 0 /\
  VectorStore.cosineSimilarity a b = Throw "Vectors must have the same length"%string.
Proof.
  intros H; unfold Processor.cosineSimilarity, VectorStore.cosineSimilarity, js_eqb_len.
  apply Nat.eqb_neq in H; rewrite H; split; reflexivity.
Qed.

(** C10 (corrected). The merger's [cosineSimilarity] is total: for vectors of different
    lengths it returns [0] (where the store's version throws). Hence, for a positive
    threshold, every index collected into a seed's cluster has an embedding of the seed's
    length: mismatched-length pairs are never merged. *)
Theorem merger_similarity_total :
  (forall a b, List.length a <> List.length b ->
     Processor.cosineSimilarity a b = 0 /\
     VectorStore.cosineSimilarity a b = Throw "Vectors must have the same length"%string) /\
  (forall embeddings processed t i n j,
     0 < t ->
     In j (Merge.find_similar embeddings processed (nth i embeddings []) t i n) ->
     List.length (nth j embeddings []) = List.length (nth i embeddings [])).
Proof.
  split; [exact cos_len_mismatch|].
  intros embeddings processed t i n j Ht Hj.
  apply find_similar_spec in Hj as (_ & _ & Hge).
  destruct (Nat.eq_dec (List.length (nth j embeddings [])) (List.length (nth i embeddings [])))
    as [E|E]; [exact E|].
  rewrite (proj1 (cos_len_mismatch _ _ (not_eq_sym E))) in Hge; lra.
Qed.

Lemma merger_similarity_total_witness :
  Processor.cosineSimilarity [1] [1; 0] = 0 /\
  List.length (nth 1 [[1; 0]; [2; 0]] []) = List.length (nth 0 [[1; 0]; [2; 0]] []).
Proof.
  split.
  - apply (proj1 merger_similarity_total); simpl; lia.
  - apply ((proj2 merger_similarity_total) [[1; 0]; [2; 0]] [] (9/10) 0%nat 2%nat 1%nat).
    + lra.
    + apply find_similar_spec; split; [lia|split; [reflexivity|]].
      simpl nth; apply cos_ge_iff; simpl; try reflexivity; try lra.
Defined.

(** C10 counterexample: at threshold [0] the mismatched-length pair [[1]], [[1,0]] has
    similarity [0 >= 0] and is merged into one chunk. *)
Lemma merger_mismatch_merged_at_zero_threshold :
  exists e, Merge.mergeSimilarChunks ["A"; "B"]%string [[1]; [1; 0]] 0 =
            Ok ([Merge.merge_text ["A"; "B"]%string], [e]).
Proof.
  rewrite merge_two.
  assert (Merge.ge_threshold (Processor.cosineSimilarity [1] [1; 0]) 0 = true) as ->.
  { apply ge_threshold_true; rewrite (proj1 (cos_len_mismatch [1] [1; 0] ltac:(simpl; lia))); lra. }
  eexists; reflexivity.
Qed.

(** ** [LocalVectorStore.search] *)

Definition sim_desc (a b : SR.SearchResult) : Prop := SR.similarity b <= SR.similarity a.

Lemma insert_desc_perm x l : Permutation (insert_desc x l) (x :: l).
Proof.
  induction l as [|y l IH]; simpl; [reflexivity|].
  destruct (Rlt_dec _ _); [reflexivity|].
  rewrite IH; apply perm_swap.
Qed.

Lemma insert_desc_sorted x l : Sorted sim_desc l -> Sorted sim_desc (insert_desc x l).
Proof.
  induction 1 as [|y l Hs IH Hhd]; simpl; [repeat constructor|].
  destruct (Rlt_dec (SR.similarity y) (SR.similarity x)) as [Hlt|Hge].
  - constructor; [constructor; auto|constructor; unfold sim_desc; lra].
  - constructor; [exact IH|].
    destruct l as [|z l]; simpl; [constructor; unfold sim_desc; lra|].
    inversion Hhd; subst.
    destruct (Rlt_dec (SR.similarity z) (SR.similarity x)); constructor; unfold sim_desc in *; lra.
Qed.

Lemma sort_desc_spec l : Permutation (sort_desc l) l /\ Sorted sim_desc (sort_desc l).
Proof.
  unfold sort_desc.
  assert (G : forall acc, Sorted sim_desc acc ->
            Permutation (fold_left (fun acc x => insert_desc x acc) l acc) (rev l ++ acc) /\
            Sorted sim_desc (fold_left (fun acc x => insert_desc x acc) l acc)).
  { induction l as [|x l IH]; intros acc Hacc; simpl; [split; [reflexivity|exact Hacc]|].
    destruct (IH (insert_desc x acc) (insert_desc_sorted x acc Hacc)) as [P S].
    split; [|exact S].
    rewrite P, <- app_assoc; simpl.
    apply Permutation_app_head, insert_desc_perm. }
  destruct (G [] (Sorted_nil _)) as [P S].
  rewrite app_nil_r in P; split; [rewrite P; symmetry; apply Permutation_rev|exact S].
Qed.

Lemma js_slice0_prefix {A} (l : list A) (k : Z) :
  exists m, js_slice0 l k = firstn m l /\
  ((0 <= k)%Z -> js_slice0 l k = firstn (Z.to_nat k) l /\
                 (Z.of_nat (List.length (js_slice0 l k)) <= k)%Z).
Proof.
  unfold js_slice0; eexists; split; [reflexivity|].
  intros Hk; destruct (Z.ltb_spec k 0) as [|_]; [lia|].
  rewrite length_firstn.
  destruct (Z.le_ge_cases k (Z.of_nat (List.length l))) as [H|H].
  - rewrite Z.min_l by exact H; split; [reflexivity|lia].
  - rewrite Z.min_r by lia; rewrite firstn_all2 by lia; rewrite (firstn_all2 (n := Z.to_nat k)) by lia.
    split; [reflexivity|lia].
Qed.

Lemma map_res_ok {A B} (f : A -> Result B) l ys :
  map_res f l = Ok ys -> Forall2 (fun x y => f x = Ok y) l ys.
Proof.
  revert ys; induction l as [|x l IH]; simpl; intros ys H.
  - injection H as <-; constructor.
  - destruct (f x) as [y|m] eqn:Fx; simpl in H; [|discriminate].
    destruct (map_res f l) as [ys'|m] eqn:Fl; simpl in H; [|discriminate].
    injection H as <-; constructor; auto.
Qed.

Lemma map_res_throw {A B} (f : A -> Result B) l x m :
  In x l -> f x = Throw m -> exists m', map_res f l = Throw m'.
Proof.
  induction l as [|y l IH]; simpl; [contradiction|].
  intros [<-|Hin] Hf.
  - rewrite Hf; simpl; eauto.
  - destruct (f y); simpl; [|eauto].
    destruct (IH Hin Hf) as [m' ->]; simpl; eauto.
Qed.

Lemma map_res_throw_inv {A B} (f : A -> Result B) l m :
  map_res f l = Throw m -> exists x, In x l /\ f x = Throw m.
Proof.
  induction l as [|y l IH]; simpl; [discriminate|].
  destruct (f y) as [b|m'] eqn:Fy; simpl.
  - destruct (map_res f l) eqn:Fl; simpl; [discriminate|].
    intros E; injection E as ->; destruct (IH eq_refl) as (x & Hx & Hf); eauto.
  - intros E; injection E as ->; eauto.
Qed.

Lemma search_unfold db q uid topK thr :
  embeddings_by_userId db uid <> [] ->
  search db q uid topK thr =
  bind_res
    (map_res (fun emb =>
                bind_res (VectorStore.cosineSimilarity q (Emb.embedding emb))
                  (fun sim => Ok (SR.mkSearchResult (Emb.id emb) (Emb.documentId emb)
                                    (Emb.text emb) sim (Emb.chunkIndex emb))))
             (embeddings_by_userId db uid))
    (fun results =>
       Ok (js_slice0 (sort_desc (filter (fun r => Merge.ge_threshold (SR.similarity r) thr)
                                        results)) topK)).
Proof.
  unfold search; destruct (embeddings_by_userId db uid); [congruence|reflexivity].
Qed.

(** C7. A stored embedding of the searched owner whose length differs from the query's
    makes [search] throw: a hard error, not a similarity of [0]. *)
Theorem search_length_mismatch_throws :
  forall db queryEmbedding userId topK similarityThreshold e,
    In e (embeddings db) -> Emb.userId e = userId ->
    List.length (Emb.embedding e) <> List.length queryEmbedding ->
    search db queryEmbedding userId topK similarityThreshold =
    Throw "Vectors must have the same length"%string.
Proof.
  intros db q uid topK thr e Hin Hu Hlen.
  assert (He : In e (embeddings_by_userId db uid))
    by (apply filter_In; split; [exact Hin|apply String.eqb_eq; exact Hu]).
  rewrite search_unfold by (intros E; rewrite E in He; contradiction).
  match goal with
  | |- bind_res (map_res ?f _) _ = _ =>
      destruct (map_res_throw f _ e "Vectors must have the same length"%string He) as [m Hm]
  end.
  - rewrite (proj2 (cos_len_mismatch q (Emb.embedding e) (not_eq_sym Hlen))); reflexivity.
  - rewrite Hm; simpl.
    apply map_res_throw_inv in Hm as (x & _ & Hx).
    destruct (VectorStore.cosineSimilarity q (Emb.embedding x)) eqn:C; simpl in Hx;
      [discriminate|].
    unfold VectorStore.cosineSimilarity in C.
    destruct (negb (js_eqb_len q (Emb.embedding x))); [congruence|].
    repeat destruct (Req_dec_T _ _); discriminate.
Qed.

Definition sample_db : DB :=
  mkDB []
    [Emb.mkStoredEmbedding "e1" "d1" 0 "The pump requires oil change every 500 hours."
       [1; 0] "owner-A" 0].

Lemma search_length_mismatch_throws_witness :
  search sample_db [1; 0; 0] "owner-A" 5 (1/2) = Throw "Vectors must have the same length"%string.
Proof.
  apply (search_length_mismatch_throws sample_db [1; 0; 0] "owner-A" 5 (1/2)
           (Emb.mkStoredEmbedding "e1" "d1" 0 "The pump requires oil change every 500 hours."
              [1; 0] "owner-A" 0)).
  - left; reflexivity.
  - reflexivity.
  - simpl; lia.
Defined.

Lemma In_firstn_In {A} (x : A) m l : In x (firstn m l) -> In x l.
Proof. intros H; rewrite <- (firstn_skipn m l); apply in_or_app; left; exact H. Qed.

Lemma Forall2_In_r {A B} (P : A -> B -> Prop) l ys y :
  Forall2 P l ys -> In y ys -> exists x, In x l /\ P x y.
Proof.
  induction 1 as [|x y' l ys' Hp _ IH]; simpl; [contradiction|].
  intros [<-|Hin]; [eauto|destruct (IH Hin) as (x' & ? & ?); eauto].
Qed.

Lemma search_result_of q emb r :
  bind_res (VectorStore.cosineSimilarity q (Emb.embedding emb))
    (fun sim => Ok (SR.mkSearchResult (Emb.id emb) (Emb.documentId emb)
                      (Emb.text emb) sim (Emb.chunkIndex emb))) = Ok r ->
  r = SR.mkSearchResult (Emb.id emb) (Emb.documentId emb) (Emb.text emb) (SR.similarity r)
        (Emb.chunkIndex emb) /\
  VectorStore.cosineSimilarity q (Emb.embedding emb) = Ok (SR.similarity r).
Proof.
  destruct (VectorStore.cosineSimilarity q (Emb.embedding emb)); simpl; [|discriminate].
  intros E; injection E as <-; split; reflexivity.
Qed.

(** The store invariant behind owner isolation: a record's [userId] is the owner of the
    document its [documentId] names. *)
Definition owner_consistent (db : DB) : Prop :=
  forall e d, In e (embeddings db) -> In d (documents db) ->
    Doc.id d = Emb.documentId e -> Doc.userId d = Emb.userId e.

(** C1 (corrected). [search] returns only records stored under the searched owner id
    (and, when every record's [userId] is its document's owner, none whose [documentId]
    names a document of another owner), each with its similarity to the query at least
    the threshold. The returned list is [filtered.slice(0, topK)] where [filtered] holds
    exactly the owner's candidates of similarity [>=] the threshold, sorted by descending
    similarity; for [topK >= 0] it is the first [topK] of them (a negative [topK] counts
    from the end, as JS [slice] does). *)
Theorem search_owner_filter_sort_slice :
  forall db queryEmbedding userId topK similarityThreshold res,
    search db queryEmbedding userId topK similarityThreshold = Ok res ->
    (forall r, In r res ->
       exists e, In e (embeddings db) /\ Emb.userId e = userId /\
         SR.id r = Emb.id e /\ SR.documentId r = Emb.documentId e /\
         SR.text r = Emb.text e /\ SR.chunkIndex r = Emb.chunkIndex e /\
         VectorStore.cosineSimilarity queryEmbedding (Emb.embedding e) = Ok (SR.similarity r) /\
         similarityThreshold <= SR.similarity r) /\
    (owner_consistent db ->
       forall r d, In r res -> In d (documents db) -> Doc.id d = SR.documentId r ->
         Doc.userId d = userId) /\
    (exists results filtered,
       Forall2 (fun e r =>
                  r = SR.mkSearchResult (Emb.id e) (Emb.documentId e) (Emb.text e)
                        (SR.similarity r) (Emb.chunkIndex e) /\
                  VectorStore.cosineSimilarity queryEmbedding (Emb.embedding e) =
                    Ok (SR.similarity r))
               (embeddings_by_userId db userId) results /\
       Permutation filtered
         (filter (fun r => Merge.ge_threshold (SR.similarity r) similarityThreshold) results) /\
       Sorted sim_desc filtered /\
       res = js_slice0 filtered topK /\
       (exists m, res = firstn m filtered) /\
       ((0 <= topK)%Z -> res = firstn (Z.to_nat topK) filtered /\
                         (Z.of_nat (List.length res) <= topK)%Z)).
Proof.
  intros db q uid topK thr res H.
  assert (Main : exists results filtered,
       Forall2 (fun e r =>
                  r = SR.mkSearchResult (Emb.id e) (Emb.documentId e) (Emb.text e)
                        (SR.similarity r) (Emb.chunkIndex e) /\
                  VectorStore.cosineSimilarity q (Emb.embedding e) = Ok (SR.similarity r))
               (embeddings_by_userId db uid) results /\
       Permutation filtered
         (filter (fun r => Merge.ge_threshold (SR.similarity r) thr) results) /\
       Sorted sim_desc filtered /\ res = js_slice0 filtered topK).
  { destruct (embeddings_by_userId db uid) as [|e0 l0] eqn:El.
    - unfold search in H; rewrite El in H; injection H as <-.
      exists [], []; repeat split; try constructor.
      unfold js_slice0; rewrite firstn_nil; reflexivity.
    - rewrite search_unfold in H by congruence.
      destruct (map_res _ _) as [results|m] eqn:Hm; simpl in H; [|discriminate].
      injection H as <-.
      apply map_res_ok in Hm.
      destruct (sort_desc_spec (filter (fun r => Merge.ge_threshold (SR.similarity r) thr) results))
        as [P S].
      exists results, (sort_desc (filter (fun r => Merge.ge_threshold (SR.similarity r) thr) results)).
      rewrite <- El; split; [|split; [exact P|split; [exact S|reflexivity]]].
      eapply Forall2_impl; [|exact Hm]; intros e r Hr; exact (search_result_of q e r Hr). }
  destruct Main as (results & filtered & HF & HP & HS & Hres).
  assert (Hin : forall r, In r res ->
            exists e, In e (embeddings_by_userId db uid) /\
              r = SR.mkSearchResult (Emb.id e) (Emb.documentId e) (Emb.text e)
                    (SR.similarity r) (Emb.chunkIndex e) /\
              VectorStore.cosineSimilarity q (Emb.embedding e) = Ok (SR.similarity r) /\
              thr <= SR.similarity r).
  { intros r Hr.
    destruct (js_slice0_prefix filtered topK) as (m & Hm & _).
    rewrite Hres, Hm in Hr; apply In_firstn_In, (Permutation_in _ HP), filter_In in Hr.
    destruct Hr as [Hr Hge]; apply ge_threshold_true in Hge.
    destruct (Forall2_In_r _ _ _ _ HF Hr) as (e & He & Er & Ec).
    exists e; auto. }
  split; [|split].
  - intros r Hr; destruct (Hin r Hr) as (e & He & Er & Ec & Hge).
    apply filter_In in He as [He Hu]; apply String.eqb_eq in Hu.
    exists e; rewrite Er; simpl; repeat split; auto.
  - intros Hcons r d Hr Hd Hid.
    destruct (Hin r Hr) as (e & He & Er & _ & _).
    apply filter_In in He as [He Hu]; apply String.eqb_eq in Hu.
    rewrite <- Hu; apply (Hcons e d He Hd); rewrite Hid, Er; reflexivity.
  - exists results, filtered; split; [exact HF|split; [exact HP|split; [exact HS|split; [exact Hres|]]]].
    destruct (js_slice0_prefix filtered topK) as (m & Hm & Hk).
    rewrite Hres; split; [exists m; exact Hm|exact Hk].
Qed.

Lemma cos_store_10 : VectorStore.cosineSimilarity [1; 0] [1; 0] = Ok 1.
Proof. apply (cos_self [1; 0]); exists 1; split; [left; reflexivity|lra]. Qed.

Lemma ge_one_half : Merge.ge_threshold 1 (1/2) = true.
Proof. apply ge_threshold_true; lra. Qed.

Definition sample_result : SR.SearchResult :=
  SR.mkSearchResult "e1" "d1" "The pump requires oil change every 500 hours." 1 0.

Lemma search_sample :
  search sample_db [1; 0] "owner-A" 5 (1/2) = Ok [sample_result].
Proof.
  rewrite search_unfold by discriminate.
  cbn -[VectorStore.cosineSimilarity Merge.ge_threshold].
  rewrite cos_store_10; cbn -[Merge.ge_threshold]; rewrite ge_one_half; reflexivity.
Qed.

Lemma search_owner_filter_sort_slice_witness :
  search sample_db [1; 0] "owner-A" 5 (1/2) = Ok [sample_result] /\
  (Z.of_nat (List.length [sample_result]) <= 5)%Z.
Proof.
  split; [exact search_sample|].
  destruct (search_owner_filter_sort_slice sample_db [1; 0] "owner-A" 5 (1/2) _ search_sample)
    as (_ & _ & (results & filtered & _ & _ & _ & _ & _ & Hk)).
  apply (Hk ltac:(lia)).
Defined.

Definition sample_db2 : DB :=
  mkDB []
    [Emb.mkStoredEmbedding "e1" "d1" 0 "The pump requires oil change every 500 hours."
       [1; 0] "owner-A" 0;
     Emb.mkStoredEmbedding "e2" "d1" 1 "Check the belt tension monthly."
       [1; 0] "owner-A" 0].

(** C1 counterexample: with [topK = -1] and two matching records, [search] returns one
    record ([slice(0, -1)] drops the last one), not at most [-1] of them. *)
Lemma search_negative_topK :
  search sample_db2 [1; 0] "owner-A" (-1) (1/2) =
    Ok [SR.mkSearchResult "e1" "d1" "The pump requires oil change every 500 hours." 1 0] /\
  (Z.of_nat 1 > -1)%Z.
Proof.
  split; [|lia].
  rewrite search_unfold by discriminate.
  cbn -[VectorStore.cosineSimilarity Merge.ge_threshold].
  rewrite cos_store_10; cbn -[Merge.ge_threshold]; rewrite ge_one_half.
  cbn -[Rlt_dec].
  destruct (Rlt_dec 1 1) as [H|_]; [lra|reflexivity].
Qed.

(** ** chunkText *)

Local Open Scope Z_scope.

Lemma chunk_step_a300_stuck (chunks : list string) :
  Chunk.chunk_step text_a300 100 100 50 chunks = Chunk.Next 50 (chunks ++ [chunk_a100]).
Proof.
  unfold Chunk.chunk_step. cbv zeta. rewrite Z.mul_comm. vm_compute. reflexivity.
Qed.

Lemma chunk_loop_a300_stuck (fuel : nat) (chunks : list string) :
  Chunk.chunk_loop fuel text_a300 100 100 50 chunks = None.
Proof.
  revert chunks; induction fuel as [|fuel IH]; intros chunks; [reflexivity|].
  cbn [Chunk.chunk_loop]. rewrite chunk_step_a300_stuck. apply IH.
Qed.

(** C4 (chunkText terminates for all parameters): it does not. With
    [chunkSize = overlap = 100] on a text of 300 non-blank characters, the first turn
    moves [start] from 0 to 50 (the guard [0 <= 1 * 0] holds and [start] becomes
    [100 - min(100, 50)]); from then on [end - overlap = 50] and the guard
    [50 <= chunks.length * 0] fails, so every turn pushes a chunk and leaves [start] at 50.
    No number of turns leaves the loop. *)
Theorem chunkText_overlap_eq_size_diverges (fuel : nat) :
  Chunk.chunkText_fuel fuel text_a300 100 100 false = None.
Proof.
  destruct fuel as [|fuel]; [reflexivity|].
  unfold Chunk.chunkText_fuel. cbn [Chunk.chunk_loop].
  replace (Chunk.chunk_step text_a300 100 100 0 []) with (Chunk.Next 50 [chunk_a100])
    by (vm_compute; reflexivity).
  apply chunk_loop_a300_stuck.
Qed.

(** With [overlap < chunkSize] each turn that does not leave the loop moves [start]
    forward, so [text.length + 1] turns suffice. *)
Lemma chunk_loop_terminates (text : string) (chunkSize overlap : Z) :
  overlap < chunkSize ->
  forall fuel start chunks,
    (Z.to_nat (Chunk.js_len text - start) < fuel)%nat ->
    exists r, Chunk.chunk_loop fuel text chunkSize overlap start chunks = Some r.
Proof.
  intros Hlt fuel; induction fuel as [|fuel IH]; intros start chunks Hf; [lia|].
  cbn [Chunk.chunk_loop]. unfold Chunk.chunk_step. cbv zeta.
  destruct (start <? Chunk.js_len text) eqn:E1; [|eauto].
  destruct (Z.min (start + chunkSize) (Chunk.js_len text) >=? Chunk.js_len text) eqn:E2;
    [eauto|].
  apply Z.ltb_lt in E1. rewrite Z.geb_leb in E2. apply Z.leb_gt in E2.
  assert (Hend : Z.min (start + chunkSize) (Chunk.js_len text) = start + chunkSize).
  { pose proof (Z.min_spec (start + chunkSize) (Chunk.js_len text)). lia. }
  rewrite Hend in *.
  pose proof (Z.le_min_l overlap (chunkSize / 2)).
  match goal with |- exists r, Chunk.chunk_loop _ _ _ _ (if ?b then _ else _) ?c = _ =>
    destruct b; apply IH end; lia.
Qed.

Lemma chunkText_fuel_terminates (text : string) (chunkSize overlap : Z) (isStructured : bool) :
  overlap < chunkSize ->
  exists r, Chunk.chunkText_fuel (S (String.length text)) text chunkSize overlap isStructured
            = Some r.
Proof.
  intros Hlt. unfold Chunk.chunkText_fuel. destruct isStructured; [eauto|].
  apply chunk_loop_terminates; [exact Hlt|].
  unfold Chunk.js_len. rewrite Z.sub_0_r, Nat2Z.id. lia.
Qed.

Local Close Scope Z_scope.

(** ** processStoredDocument and deleteDocument *)

Section KeyedLemmas.
Context {V : Type} (key : V -> string).

Lemma insert_by_key_perm (v : V) (l : list V) : Permutation (insert_by_key key v l) (v :: l).
Proof.
  induction l as [|w l IH]; simpl; [auto|].
  destruct (String.compare (key v) (key w)); auto.
  rewrite IH. apply perm_swap.
Qed.

Lemma store_add_perm (v : V) (l l' : list V) :
  store_add key v l = Ok l' -> Permutation l' (v :: l).
Proof.
  unfold store_add; destruct (has_key key (key v) l); intros H; inversion H.
  apply insert_by_key_perm.
Qed.

Lemma store_get_key (k : string) (l : list V) (v : V) :
  store_get key k l = Some v -> key v = k.
Proof.
  unfold store_get; intros H; apply find_some in H; destruct H as [_ H].
  now apply String.eqb_eq in H.
Qed.

Lemma store_get_insert_fresh (v : V) (l : list V) :
  (forall w, In w l -> key w <> key v) -> store_get key (key v) (insert_by_key key v l) = Some v.
Proof.
  unfold store_get; induction l as [|w l IH]; intros Hl; simpl.
  - now rewrite String.eqb_refl.
  - assert (Hw : key w <> key v) by (apply Hl; left; reflexivity).
    assert (Hl' : forall u, In u l -> key u <> key v) by (intros u Hu; apply Hl; right; exact Hu).
    destruct (String.compare (key v) (key w)); simpl; rewrite ?String.eqb_refl; auto.
    apply String.eqb_neq in Hw; rewrite Hw. apply IH, Hl'.
Qed.

Lemma store_get_put_same (v : V) (l : list V) :
  store_get key (key v) (store_put key v l) = Some v.
Proof.
  unfold store_put; apply store_get_insert_fresh.
  intros w Hw; unfold store_delete in Hw; apply filter_In in Hw; destruct Hw as [_ Hw].
  apply negb_true_iff, String.eqb_neq in Hw; exact Hw.
Qed.

Lemma store_get_delete_same (k : string) (l : list V) :
  store_get key k (store_delete key k l) = None.
Proof.
  unfold store_get, store_delete; induction l as [|w l IH]; simpl; auto.
  destruct (String.eqb (key w) k) eqn:E; simpl; auto. rewrite E; auto.
Qed.

Lemma store_get_delete_other (k k' : string) (l : list V) :
  k' <> k -> store_get key k' (store_delete key k l) = store_get key k' l.
Proof.
  intros Hne; unfold store_get, store_delete; induction l as [|w l IH]; simpl; auto.
  destruct (String.eqb_spec (key w) k) as [E|E]; simpl.
  - destruct (String.eqb_spec (key w) k') as [E'|E']; [congruence|auto].
  - destruct (String.eqb (key w) k'); auto.
Qed.

End KeyedLemmas.

Lemma fold_delete_In (ks l : list Emb.StoredEmbedding) (x : Emb.StoredEmbedding) :
  In x (fold_left (fun l e => store_delete Emb.id (Emb.id e) l) ks l) <->
  In x l /\ Forall (fun e => Emb.id e <> Emb.id x) ks.
Proof.
  revert l; induction ks as [|k ks IH]; intros l; simpl.
  - split; [intros; split; auto|tauto].
  - rewrite IH; unfold store_delete; rewrite filter_In, negb_true_iff, String.eqb_neq,
      Forall_cons_iff.
    split; [intros [[H1 H2] H3]|intros [H1 [H2 H3]]]; repeat split; auto; congruence.
Qed.

Lemma filter_none {A} (f : A -> bool) (l : list A) :
  (forall x, In x l -> f x = false) -> filter f l = [].
Proof.
  induction l as [|a l IH]; intros H; simpl; auto.
  rewrite H by (left; auto). apply IH; intros; apply H; right; auto.
Qed.

Lemma deleteDocument_spec (db : DB) (did : string) :
  snd (Proc.deleteDocument db did) = Ok tt /\
  store_get Doc.id did (documents (fst (Proc.deleteDocument db did))) = None /\
  embeddings_by_documentId (fst (Proc.deleteDocument db did)) did = [] /\
  (forall k, k <> did ->
     store_get Doc.id k (documents (fst (Proc.deleteDocument db did))) =
     store_get Doc.id k (documents db)).
Proof.
  unfold Proc.deleteDocument; simpl. repeat split.
  - apply store_get_delete_same.
  - unfold embeddings_by_documentId at 1; simpl. apply filter_none.
    intros x Hx; apply fold_delete_In in Hx; destruct Hx as [Hx Hall].
    destruct (String.eqb_spec (Emb.documentId x) did) as [E|E]; auto.
    exfalso. rewrite Forall_forall in Hall. apply (Hall x); auto.
    unfold embeddings_by_documentId; apply filter_In; split; auto.
    now apply String.eqb_eq.
  - intros k Hk; apply store_get_delete_other; exact Hk.
Qed.

(** C2 (corrected). [processStoredDocument] refuses another owner's document with
    [Unauthorized] and leaves the store as it was, provided an API client is configured:
    without one it fails earlier with the API-key error, also leaving the store as it was.
    [deleteDocument] has no caller id at all: for any document id it succeeds, and the
    document and all its embedding records are gone afterwards, whoever owns them. *)
Theorem process_delete_ownership :
  (forall env db did uid d,
     Proc.client_set env = true ->
     store_get Doc.id did (documents db) = Some d -> Doc.userId d <> uid ->
     Proc.processStoredDocument env db did uid =
       (db, Throw "Unauthorized: Document belongs to another user")) /\
  (forall env db did uid,
     Proc.client_set env = false ->
     Proc.processStoredDocument env db did uid =
       (db, Throw "Cohere API key not set. Please provide your API key first.")) /\
  (forall db did,
     snd (Proc.deleteDocument db did) = Ok tt /\
     store_get Doc.id did (documents (fst (Proc.deleteDocument db did))) = None /\
     embeddings_by_documentId (fst (Proc.deleteDocument db did)) did = []).
Proof.
  split; [|split].
  - intros env db did uid d Hc Hg Hu.
    unfold Proc.processStoredDocument, Proc.prepare, Proc.load_document.
    rewrite Hc, Hg. apply String.eqb_neq in Hu; rewrite Hu. reflexivity.
  - intros env db did uid Hc.
    unfold Proc.processStoredDocument, Proc.prepare, Proc.load_document.
    rewrite Hc. reflexivity.
  - intros db did; pose proof (deleteDocument_spec db did) as (H1 & H2 & H3 & _).
    auto.
Qed.

Lemma add_all_records (env : Proc.Env) (did uid : string) (me : list (list R))
    (texts : list string) (idx : nat) (l : list Emb.StoredEmbedding) (err : option string) :
  exists added,
    Permutation (fst (Proc.add_all env did uid me texts idx l err)) (added ++ l) /\
    Forall (fun e => Emb.documentId e = did /\ Emb.userId e = uid /\
              exists k, Emb.chunkIndex e = Z.of_nat (idx + k) /\
                        nth_error texts k = Some (Emb.text e) /\
                        Emb.embedding e = nth (idx + k) me []) added /\
    NoDup (map Emb.chunkIndex added) /\
    (snd (Proc.add_all env did uid me texts idx l err) = None ->
     err = None /\ List.length added = List.length texts).
Proof.
  revert idx l err; induction texts as [|t texts IH]; intros idx l err; simpl.
  - exists []; simpl.
    split; [apply Permutation_refl|split; [constructor|split; [constructor|auto]]].
  - set (e := Emb.mkStoredEmbedding (Proc.generateUUID env idx) did (Z.of_nat idx) t
                (nth idx me []) uid (Proc.now env idx)).
    assert (Hshift : forall added,
      Forall (fun e => Emb.documentId e = did /\ Emb.userId e = uid /\
                exists k, Emb.chunkIndex e = Z.of_nat (S idx + k) /\
                          nth_error texts k = Some (Emb.text e) /\
                          Emb.embedding e = nth (S idx + k) me []) added ->
      Forall (fun e => Emb.documentId e = did /\ Emb.userId e = uid /\
                exists k, Emb.chunkIndex e = Z.of_nat (idx + k) /\
                          nth_error (t :: texts) k = Some (Emb.text e) /\
                          Emb.embedding e = nth (idx + k) me []) added).
    { intros added F. eapply Forall_impl; [|exact F].
      intros x (Hd & Hu & k & Hk). split; [exact Hd|split; [exact Hu|]].
      exists (S k). replace (idx + S k)%nat with (S idx + k)%nat by lia. exact Hk. }
    destruct (Proc.add_error env idx) as [m|] eqn:Ea.
    + destruct (IH (S idx) l (match err with Some _ => err | None => Some m end))
        as (added & P & F & D & N).
      exists added; split; [exact P|split; [apply Hshift, F|split; [exact D|]]].
      intros Hn; destruct (N Hn) as [Herr _]; destruct err; discriminate.
    + destruct (store_add Emb.id e l) as [l'|m] eqn:Es.
      * destruct (IH (S idx) l' (match err with Some _ => err | None => None end))
          as (added & P & F & D & N).
        exists (added ++ [e]); split; [|split; [|split]].
        -- rewrite P, <- app_assoc; simpl. apply Permutation_app_head.
           apply store_add_perm in Es; exact Es.
        -- apply Forall_app; split; [apply Hshift, F|].
           constructor; [|constructor].
           split; [reflexivity|split; [reflexivity|]].
           exists 0%nat. rewrite Nat.add_0_r. split; [reflexivity|split; reflexivity].
        -- rewrite map_app. apply NoDup_app; [exact D|repeat constructor; intros []|].
           intros x Hx [Hx'|[]]. apply in_map_iff in Hx as (y & Hy & Hin).
           rewrite Forall_forall in F. destruct (F y Hin) as (_ & _ & k & Hk & _).
           subst x. rewrite Hk in Hx'. simpl in Hx'. lia.
        -- intros Hn; destruct (N Hn) as [Herr Hl]; split; [destruct err; [discriminate|auto]|].
           rewrite length_app, Hl; simpl; lia.
      * destruct (IH (S idx) l (match err with Some _ => err | None => Some m end))
          as (added & P & F & D & N).
        exists added; split; [exact P|split; [apply Hshift, F|split; [exact D|]]].
        intros Hn; destruct (N Hn) as [Herr _]; destruct err; discriminate.
Qed.

Lemma load_document_ok env db did uid d :
  Proc.load_document env db did uid = Ok d -> store_get Doc.id did (documents db) = Some d.
Proof.
  unfold Proc.load_document.
  destruct (negb (Proc.client_set env)); [discriminate|].
  destruct (store_get Doc.id did (documents db)) as [d'|]; [|discriminate].
  destruct (negb _); [discriminate|]. destruct (Doc.processed d'); [discriminate|].
  intros H; inversion H; reflexivity.
Qed.

Lemma extract_stage_spec env db d :
  embeddings (fst (Proc.extract_stage env db d)) = embeddings db /\
  (documents (fst (Proc.extract_stage env db d)) = documents db \/
   exists t, documents (fst (Proc.extract_stage env db d)) =
             store_put Doc.id (Proc.with_text d t) (documents db)) /\
  (forall d', snd (Proc.extract_stage env db d) = Ok d' -> Doc.id d' = Doc.id d).
Proof.
  unfold Proc.extract_stage.
  destruct (_ && _); [|simpl; split; [|split]; auto; intros d' H; inversion H; auto].
  destruct (Proc.extractText env d) as [t|m];
    [|simpl; split; [|split]; auto; intros ? H; discriminate H].
  destruct (Proc.text_update_error env) as [m|]; simpl; (split; [reflexivity|split; [eauto|]]).
  - intros ? H; discriminate H.
  - intros d' H; inversion H; reflexivity.
Qed.

Lemma prepare_fst env db did uid :
  fst (Proc.prepare env db did uid) =
  match Proc.load_document env db did uid with
  | Throw _ => db
  | Ok d => fst (Proc.extract_stage env db d)
  end.
Proof.
  unfold Proc.prepare.
  destruct (Proc.load_document env db did uid) as [d|m]; [|reflexivity].
  destruct (Proc.extract_stage env db d) as [db1 [d1|m]]; [|reflexivity]. simpl.
  destruct (String.eqb _ _); [reflexivity|].
  destruct (Chunk.chunkText_fuel _ _ _ _ _) as [chunks|]; [|reflexivity].
  destruct (Proc.embed_batches _ _ _) as [es|m]; [|reflexivity].
  destruct (Merge.mergeSimilarChunks _ _ _); reflexivity.
Qed.

Lemma prepare_snd_ok env db did uid d mc me :
  snd (Proc.prepare env db did uid) = Ok (d, (mc, me)) ->
  exists d0, Proc.load_document env db did uid = Ok d0 /\
             snd (Proc.extract_stage env db d0) = Ok d.
Proof.
  unfold Proc.prepare.
  destruct (Proc.load_document env db did uid) as [d0|m]; [|discriminate].
  destruct (Proc.extract_stage env db d0) as [db1 [d1|m]] eqn:Ex; [|discriminate]. simpl.
  destruct (String.eqb _ _); [discriminate|].
  destruct (Chunk.chunkText_fuel _ _ _ _ _) as [chunks|]; [|discriminate].
  destruct (Proc.embed_batches _ _ _) as [es|m]; [|discriminate].
  destruct (Merge.mergeSimilarChunks _ _ _); [|discriminate].
  simpl; intros H; inversion H; subst. exists d0; split; [reflexivity|]. rewrite Ex; reflexivity.
Qed.

Lemma prepare_spec env db did uid :
  embeddings (fst (Proc.prepare env db did uid)) = embeddings db /\
  (forall d, store_get Doc.id did (documents (fst (Proc.prepare env db did uid))) = Some d ->
     exists d0, store_get Doc.id did (documents db) = Some d0 /\
                Doc.processed d = Doc.processed d0) /\
  (forall d mc me, snd (Proc.prepare env db did uid) = Ok (d, (mc, me)) -> Doc.id d = did).
Proof.
  rewrite prepare_fst. split; [|split].
  - destruct (Proc.load_document env db did uid); [apply extract_stage_spec|reflexivity].
  - intros d Hd.
    destruct (Proc.load_document env db did uid) as [d0|m] eqn:El; [|eauto].
    apply load_document_ok in El.
    destruct (extract_stage_spec env db d0) as (_ & [E|[t E]] & _); rewrite E in Hd;
      [eauto|].
    pose proof (store_get_key Doc.id _ _ _ El) as Hk.
    exists d0; split; [exact El|].
    replace did with (Doc.id (Proc.with_text d0 t)) in Hd by exact Hk.
    rewrite store_get_put_same in Hd. inversion Hd; reflexivity.
  - intros d mc me H. apply prepare_snd_ok in H as (d0 & El & Ex).
    apply load_document_ok in El. apply store_get_key in El.
    destruct (extract_stage_spec env db d0) as (_ & _ & Hid).
    rewrite (Hid d Ex). exact El.
Qed.

(** C3 (corrected). What [processStoredDocument] leaves in the store. The only new
    embedding records belong to this document, under the caller's id. If the run fails
    before the storing stage, no embedding record is added. Otherwise there is at most one
    new record per merged chunk: the record with [chunkIndex] [k] holds merged chunk [k]
    and its embedding; and when every [addEmbedding] succeeds there is one for each merged
    chunk, whether or not the final [updateDocument] then fails. On success one record
    per merged chunk is added and the stored document is marked processed. On failure
    the document's [processed] flag is the one it had before. So the run is not atomic:
    the records added before a failed [addEmbedding] or a failed final update stay (see
    [process_partial_commit]). *)
Theorem process_storage_outcome (env : Proc.Env) (db : DB) (did uid : string) :
  exists added,
    Permutation (embeddings (fst (Proc.processStoredDocument env db did uid)))
                (added ++ embeddings db) /\
    Forall (fun e => Emb.documentId e = did /\ Emb.userId e = uid) added /\
    ((exists m, snd (Proc.prepare env db did uid) = Throw m) -> added = []) /\
    (forall d mc me, snd (Proc.prepare env db did uid) = Ok (d, (mc, me)) ->
       NoDup (map Emb.chunkIndex added) /\
       Forall (fun e => exists k, Emb.chunkIndex e = Z.of_nat k /\
                                  nth_error mc k = Some (Emb.text e) /\
                                  Emb.embedding e = nth k me []) added /\
       (snd (Proc.add_all env did uid me mc 0 (embeddings db) None) = None ->
        List.length added = List.length mc)) /\
    (forall res, snd (Proc.processStoredDocument env db did uid) = Ok res ->
       List.length added = Proc.chunksCreated res /\
       exists d, store_get Doc.id did
                   (documents (fst (Proc.processStoredDocument env db did uid))) = Some d /\
                 Doc.processed d = true) /\
    (forall m, snd (Proc.processStoredDocument env db did uid) = Throw m ->
       forall d, store_get Doc.id did
                   (documents (fst (Proc.processStoredDocument env db did uid))) = Some d ->
       exists d0, store_get Doc.id did (documents db) = Some d0 /\
                  Doc.processed d = Doc.processed d0).
Proof.
  pose proof (prepare_spec env db did uid) as (Hemb & Hdoc & Hid).
  unfold Proc.processStoredDocument.
  destruct (Proc.prepare env db did uid) as [db1 [[d [mc me]]|m]] eqn:Ep; simpl in *.
  - specialize (Hid d mc me eq_refl).
    unfold Proc.store_stage. rewrite <- Hemb.
    pose proof (add_all_records env did uid me mc 0 (embeddings db1) None)
      as (added & P & F & D & N).
    destruct (Proc.add_all env did uid me mc 0 (embeddings db1) None) as [l err] eqn:Ea.
    simpl in P, N. rewrite Hemb in P |- *.
    exists added; split; [|split; [|split; [intros [m' Hm]; discriminate Hm|split]]].
    { destruct err; [|destruct (Proc.final_update_error env)]; exact P. }
    { eapply Forall_impl; [|exact F]. intros x (Hd & Hu & _); split; assumption. }
    { intros d' mc' me' H; inversion H; subst d' mc' me'.
      split; [exact D|split].
      - eapply Forall_impl; [|exact F]. intros x (_ & _ & k & Hk). exists k; exact Hk.
      - intros Hn; rewrite <- Hemb, Ea in Hn; exact (proj2 (N Hn)). }
    destruct err as [m'|]; [|destruct (Proc.final_update_error env) as [m'|]]; simpl.
    + split; [intros ? H; discriminate H|]. intros _ _ d' Hd'. apply Hdoc; exact Hd'.
    + split; [intros ? H; discriminate H|]. intros _ _ d' Hd'. apply Hdoc; exact Hd'.
    + split; [|intros ? H; discriminate H].
      intros res Hres; inversion Hres; subst; simpl.
      split; [apply N; reflexivity|].
      exists (Proc.with_processed d); split; [|reflexivity].
      change (Doc.id d) with (Doc.id (Proc.with_processed d)).
      apply store_get_put_same.
  - exists []; simpl; split; [rewrite Hemb; reflexivity|split; [constructor|split; [auto|]]].
    split; [intros ? ? ? H; discriminate H|].
    split; [intros ? H; discriminate H|]. intros _ _ d' Hd'. apply Hdoc; exact Hd'.
Qed.

Lemma cos_orth : Processor.cosineSimilarity [1; 0]%R [0; 1]%R = 0%R.
Proof.
  sim_unfold; simpl.
  replace (1 * 1 + (0 * 0 + 0))%R with 1%R by ring.
  replace (0 * 0 + (1 * 1 + 0))%R with 1%R by ring.
  replace (1 * 0 + (0 * 1 + 0))%R with 0%R by ring.
  rewrite sqrt_1, Rmult_1_l.
  destruct (Req_dec_T 1 0); [reflexivity|]. unfold Rdiv; ring.
Qed.

Lemma prepare_c :
  Proc.prepare env_c db_c "doc-1" "user-a" =
  (db_c, Ok (doc_c, ([chunk_a1000; chunk_a300], [[1; 0]; [0; 1]]%R))).
Proof.
  unfold Proc.prepare.
  replace (Proc.load_document env_c db_c "doc-1" "user-a") with (Ok doc_c : Result Doc.StoredDocument)
    by (vm_compute; reflexivity).
  replace (Proc.extract_stage env_c db_c doc_c) with (db_c, (Ok doc_c : Result Doc.StoredDocument))
    by (vm_compute; reflexivity).
  cbv beta iota zeta.
  replace (String.eqb (Doc.textContent doc_c) EmptyString) with false by (vm_compute; reflexivity).
  replace (Chunk.chunkText_fuel _ (Doc.textContent doc_c) 1000 200 (Proc.isCSV doc_c))
    with (Some [chunk_a1000; chunk_a300]) by (vm_compute; reflexivity).
  replace (Proc.isCSV doc_c) with false by (vm_compute; reflexivity).
  cbv beta iota zeta.
  replace (Proc.embed_batches env_c _ [chunk_a1000; chunk_a300]) with
    (Ok [[1; 0]; [0; 1]]%R : Result (list (list R))) by reflexivity.
  cbv beta iota zeta.
  rewrite merge_two, cos_orth.
  replace (Merge.ge_threshold 0 (92 / 100)) with false.
  - reflexivity.
  - symmetry; destruct (Merge.ge_threshold 0 (92 / 100)) eqn:E; [|reflexivity].
    apply ge_threshold_true in E; lra.
Qed.

Lemma prepare_f :
  Proc.prepare env_f db_c "doc-1" "user-a" =
  (db_c, Ok (doc_c, ([chunk_a1000; chunk_a300], [[1; 0]; [0; 1]]%R))).
Proof.
  unfold Proc.prepare.
  replace (Proc.load_document env_f db_c "doc-1" "user-a") with (Ok doc_c : Result Doc.StoredDocument)
    by (vm_compute; reflexivity).
  replace (Proc.extract_stage env_f db_c doc_c) with (db_c, (Ok doc_c : Result Doc.StoredDocument))
    by (vm_compute; reflexivity).
  cbv beta iota zeta.
  replace (String.eqb (Doc.textContent doc_c) EmptyString) with false by (vm_compute; reflexivity).
  replace (Chunk.chunkText_fuel _ (Doc.textContent doc_c) 1000 200 (Proc.isCSV doc_c))
    with (Some [chunk_a1000; chunk_a300]) by (vm_compute; reflexivity).
  replace (Proc.isCSV doc_c) with false by (vm_compute; reflexivity).
  cbv beta iota zeta.
  replace (Proc.embed_batches env_f _ [chunk_a1000; chunk_a300]) with
    (Ok [[1; 0]; [0; 1]]%R : Result (list (list R))) by reflexivity.
  cbv beta iota zeta.
  rewrite merge_two, cos_orth.
  replace (Merge.ge_threshold 0 (92 / 100)) with false.
  - reflexivity.
  - symmetry; destruct (Merge.ge_threshold 0 (92 / 100)) eqn:E; [|reflexivity].
    apply ge_threshold_true in E; lra.
Qed.

(** C3, counterexample to all-or-nothing storage: the document is cut into two merged
    chunks. With [env_c] the first [addEmbedding] commits and the second fails: the call
    fails, the document stays unprocessed, and one of its two records is stored. With
    [env_f] both adds commit and the final [updateDocument] fails: the call fails, the
    document stays unprocessed, and both records are stored. *)
Lemma process_partial_commit :
  Proc.prepare env_c db_c "doc-1" "user-a" =
  (db_c, Ok (doc_c, ([chunk_a1000; chunk_a300], [[1; 0]; [0; 1]]%R))) /\
  Proc.processStoredDocument env_c db_c "doc-1" "user-a" =
  (mkDB [doc_c] [Emb.mkStoredEmbedding "emb-0" "doc-1" 0 chunk_a1000 [1; 0]%R "user-a" 0],
   Throw "QuotaExceededError") /\
  Proc.processStoredDocument env_f db_c "doc-1" "user-a" =
  (mkDB [doc_c] [Emb.mkStoredEmbedding "emb-0" "doc-1" 0 chunk_a1000 [1; 0]%R "user-a" 0;
                 Emb.mkStoredEmbedding "emb-1" "doc-1" 1 chunk_a300 [0; 1]%R "user-a" 0],
   Throw "AbortError").
Proof.
  split; [exact prepare_c|split].
  - unfold Proc.processStoredDocument; rewrite prepare_c. reflexivity.
  - unfold Proc.processStoredDocument; rewrite prepare_f. reflexivity.
Qed.

Lemma process_delete_ownership_witness :
  Proc.processStoredDocument env_c db_c "doc-1" "user-b" =
  (db_c, Throw "Unauthorized: Document belongs to another user").
Proof.
  apply (proj1 process_delete_ownership env_c db_c "doc-1"%string "user-b"%string doc_c);
    [reflexivity|reflexivity|discriminate].
Defined.

(** C2, counterexample for deletion: the only document belongs to [user-a], and a
    request from any other user, say [user-b], is the same call [deleteDocument("doc-1")].
    It succeeds and removes the document and its embedding record. *)
Lemma delete_other_owner_document :
  Doc.userId doc_c = "user-a"%string /\
  Proc.deleteDocument db_del "doc-1" = (mkDB [] [], Ok tt).
Proof.
  split; reflexivity.
Qed.

(** ** processQuery *)

Lemma has_key_insert {V} (key : V -> string) (k : string) (v : V) (l : list V) :
  has_key key k (insert_by_key key v l) = String.eqb (key v) k || has_key key k l.
Proof.
  unfold has_key; induction l as [|w l IH]; simpl; [now rewrite orb_false_r|].
  destruct (String.compare (key v) (key w)); simpl; auto.
  rewrite IH, !orb_assoc, (orb_comm (String.eqb (key w) k)); reflexivity.
Qed.

(** C9. When retrieval finds nothing ([search] returns no result), [processQuery] goes on:
    it sends the chat request without a [documents] field and returns the generated text
    with [sources = []] and no [sourceNames]. The hypotheses are the services and the two
    history writes succeeding, which the call needs whatever retrieval returns. *)
Theorem processQuery_zero_results (env : Agent.Env) (cfg : Agent.AgentConfig) (uid : string)
    (db : DB) (hist : list Agent.ChatMessage) (query : string) (qe : list R)
    (es : list (list R)) (response : string) :
  Agent.client_set env = true ->
  Agent.useRAG cfg = true ->
  Agent.embed_query env query = Ok (qe :: es) ->
  search db qe uid (Agent.topK cfg) (Agent.similarityThreshold cfg) = Ok [] ->
  Agent.chat_service env
    (Agent.chat_request query (Some []) "command-a-03-2025" (Agent.cfg_temperature cfg)
       (Agent.maxTokens cfg) (Agent.systemPrompt cfg)) = Ok response ->
  Agent.message_error env 0 = None -> Agent.message_error env 1 = None ->
  Agent.generateUUID env 0 <> Agent.generateUUID env 1 ->
  has_key Agent.id (Agent.generateUUID env 0) hist = false ->
  has_key Agent.id (Agent.generateUUID env 1) hist = false ->
  Agent.request_documents
    (Agent.chat_request query (Some []) "command-a-03-2025" (Agent.cfg_temperature cfg)
       (Agent.maxTokens cfg) (Agent.systemPrompt cfg)) = None /\
  exists hist',
    Agent.processQuery env cfg uid db hist query =
    (hist', Ok (Agent.mkAgentResponse response (Some []) None)).
Proof.
  intros Hc Hrag Hemb Hs Hchat He0 He1 Hid Hk0 Hk1.
  split; [reflexivity|].
  unfold Agent.processQuery, Agent.retrieveContext.
  rewrite Hc, Hrag, Hemb. cbn [negb bind_res]. rewrite Hs. cbn [bind_res map dedup dedup_aux List.length Nat.ltb Nat.leb].
  rewrite Hchat. unfold Agent.storeMessage. rewrite He0, He1.
  unfold store_add at 1. cbn [Agent.id]. rewrite Hk0.
  unfold store_add. cbn [Agent.id]. rewrite has_key_insert, Hk1. cbn [Agent.id].
  destruct (String.eqb_spec (Agent.generateUUID env 0) (Agent.generateUUID env 1));
    [contradiction|].
  eexists; reflexivity.
Qed.

Lemma processQuery_zero_results_witness :
  Agent.request_documents
    (Agent.chat_request "pump?" (Some []) "command-a-03-2025" (Agent.cfg_temperature cfg_q)
       (Agent.maxTokens cfg_q) (Agent.systemPrompt cfg_q)) = None /\
  exists hist',
    Agent.processQuery env_q cfg_q "user-a" db_c [] "pump?" =
    (hist', Ok (Agent.mkAgentResponse "Check the pump seals." (Some []) None)).
Proof.
  apply (processQuery_zero_results env_q cfg_q "user-a"%string db_c [] "pump?"%string
           [1; 0] [] "Check the pump seals."%string);
    try reflexivity; discriminate.
Defined.

(** * Further properties of the code *)

Section KeyedExtra.
Context {V : Type} (key : V -> string).

Lemma store_get_insert_other (v : V) (l : list V) (k : string) :
  key v <> k -> store_get key k (insert_by_key key v l) = store_get key k l.
Proof.
  intros Hne; unfold store_get; induction l as [|w l IH]; simpl.
  - apply String.eqb_neq in Hne; rewrite Hne; reflexivity.
  - destruct (String.compare (key v) (key w)); simpl;
      try (apply String.eqb_neq in Hne as Hne'; rewrite Hne'; reflexivity).
    destruct (String.eqb (key w) k); [reflexivity|exact IH].
Qed.

Lemma has_key_false (k : string) (l : list V) :
  has_key key k l = false <-> ~ In k (map key l).
Proof.
  unfold has_key; rewrite <- not_true_iff_false, existsb_exists, in_map_iff.
  split; intros H [x [Hx Hin]]; apply H; exists x; split; auto;
    [subst; apply String.eqb_refl|apply String.eqb_eq in Hin; exact Hin].
Qed.

Lemma store_add_ok (v : V) (l l' : list V) :
  store_add key v l = Ok l' -> has_key key (key v) l = false /\ l' = insert_by_key key v l.
Proof.
  unfold store_add; destruct (has_key key (key v) l); intros H; inversion H; auto.
Qed.

Lemma store_get_add (v : V) (l l' : list V) :
  store_add key v l = Ok l' ->
  store_get key (key v) l' = Some v /\
  (forall k, k <> key v -> store_get key k l' = store_get key k l).
Proof.
  intros H; apply store_add_ok in H as [Hk ->]; split.
  - apply store_get_insert_fresh; intros w Hw E.
    apply has_key_false in Hk; apply Hk, in_map_iff; eauto.
  - intros k Hne; apply store_get_insert_other; congruence.
Qed.

Lemma store_add_throw (v : V) (l : list V) :
  store_add key v l = Throw "ConstraintError"%string <-> In (key v) (map key l).
Proof.
  unfold store_add; destruct (has_key key (key v) l) eqn:E.
  - split; [intros _|reflexivity].
    destruct (In_dec string_dec (key v) (map key l)) as [|n]; [assumption|].
    apply has_key_false in n; congruence.
  - split; [discriminate|intros Hin; apply has_key_false in E; contradiction].
Qed.

Lemma map_key_delete (k : string) (l : list V) :
  map key (store_delete key k l) = filter (fun k' => negb (String.eqb k' k)) (map key l).
Proof.
  unfold store_delete; induction l as [|w l IH]; simpl; auto.
  destruct (String.eqb (key w) k); simpl; rewrite IH; reflexivity.
Qed.

Lemma NoDup_filter_l {A} (f : A -> bool) (l : list A) : NoDup l -> NoDup (filter f l).
Proof.
  induction 1 as [|x l Hx Hnd IH]; simpl; [constructor|].
  destruct (f x); [constructor; [rewrite filter_In; tauto|]|]; exact IH.
Qed.

Lemma NoDup_insert (v : V) (l : list V) :
  NoDup (map key l) -> ~ In (key v) (map key l) -> NoDup (map key (insert_by_key key v l)).
Proof.
  intros Hnd Hn.
  apply (Permutation_NoDup (l := key v :: map key l)); [|constructor; assumption].
  change (key v :: map key l) with (map key (v :: l)).
  apply Permutation_map, Permutation_sym, insert_by_key_perm.
Qed.

End KeyedExtra.

(** X1. Round trip of addItem and getItem: after a successful addItem, getItem on the new item's key returns that item and every other key reads as before; addItem fails with ConstraintError exactly when an item with the same key is already stored. *)
Theorem addItem_getItem {V} (key : V -> string) (v : V) (l : list V) :
  (forall l', store_add key v l = Ok l' ->
     store_get key (key v) l' = Some v /\
     (forall k, k <> key v -> store_get key k l' = store_get key k l)) /\
  (store_add key v l = Throw "ConstraintError"%string <-> In (key v) (map key l)).
Proof.
  split; [intros l' H; apply store_get_add; exact H|apply store_add_throw].
Qed.

(** X2. If the keys of a store are distinct, they stay distinct after a successful addItem, after an updateItem (put) and after a deleteItem. *)
Theorem store_keys_unique {V} (key : V -> string) (l : list V) :
  NoDup (map key l) ->
  (forall v l', store_add key v l = Ok l' -> NoDup (map key l')) /\
  (forall v, NoDup (map key (store_put key v l))) /\
  (forall k, NoDup (map key (store_delete key k l))).
Proof.
  intros Hnd; split; [|split].
  - intros v l' H; apply store_add_ok in H as [Hk ->].
    apply NoDup_insert; [exact Hnd|apply has_key_false; exact Hk].
  - intros v; unfold store_put; apply NoDup_insert.
    + rewrite map_key_delete; apply NoDup_filter_l; exact Hnd.
    + rewrite map_key_delete, filter_In, String.eqb_refl; simpl; intros [_ H]; discriminate H.
  - intros k; rewrite map_key_delete; apply NoDup_filter_l; exact Hnd.
Qed.

(** X3. After updateItem (put) of an item, getItem on its key returns it and getItem on any other key is unchanged; after deleteItem of a key, getItem on that key returns null and getItem on any other key is unchanged. *)
Theorem updateItem_deleteItem_getItem {V} (key : V -> string) (v : V) (l : list V) (k : string) :
  store_get key (key v) (store_put key v l) = Some v /\
  (k <> key v -> store_get key k (store_put key v l) = store_get key k l) /\
  store_get key k (store_delete key k l) = None /\
  (forall k', k' <> k -> store_get key k' (store_delete key k l) = store_get key k' l).
Proof.
  split; [apply store_get_put_same|split; [|split]].
  - intros Hne; unfold store_put; rewrite store_get_insert_other by congruence.
    apply store_get_delete_other; exact Hne.
  - apply store_get_delete_same.
  - intros k' Hne; apply store_get_delete_other; exact Hne.
Qed.

(** X4. A successful uploadDocument adds no embedding record and returns the generated id; the stored document passes processStoredDocument's checks for the uploader, with empty text, processed = false, the file's name, type, size and bytes and the upload time; for any other user the same checks fail with the Unauthorized error. *)
Theorem upload_then_load (documentId : string) (now : Z) (file : Upload.File)
    (uid : string) (db db' : DB) (r : Upload.UploadResult) (env : Proc.Env) :
  Upload.uploadDocument documentId now file uid db = (db', Ok r) ->
  Proc.client_set env = true ->
  embeddings db' = embeddings db /\
  Upload.documentId r = documentId /\
  Proc.load_document env db' documentId uid =
    Ok (Doc.mkStoredDocument documentId (Upload.name file) (Upload.type_ file)
          (Upload.size file) now EmptyString uid false (Some (Upload.bytes file))) /\
  (forall uid', uid' <> uid ->
     Proc.load_document env db' documentId uid' =
     Throw "Unauthorized: Document belongs to another user"%string).
Proof.
  unfold Upload.uploadDocument; intros H Hc.
  destruct (store_add Doc.id _ (documents db)) as [docs|m] eqn:E; inversion H; subst; clear H.
  apply store_get_add in E as [Eg _]; simpl in Eg.
  unfold Proc.load_document; simpl; rewrite Hc, Eg; simpl.
  split; [reflexivity|split; [reflexivity|split]].
  - rewrite String.eqb_refl; reflexivity.
  - intros uid' Hne. destruct (String.eqb_spec uid uid'); [congruence|reflexivity].
Qed.

(** X5. uploadDocument with an id that a stored document already has fails with ConstraintError and leaves the store unchanged. *)
Theorem upload_existing_id (documentId : string) (now : Z) (file : Upload.File)
    (uid : string) (db : DB) :
  In documentId (map Doc.id (documents db)) ->
  Upload.uploadDocument documentId now file uid db = (db, Throw "ConstraintError"%string).
Proof.
  intros Hin; unfold Upload.uploadDocument.
  match goal with |- context [store_add Doc.id ?d (documents db)] =>
    assert (E : store_add Doc.id d (documents db) = Throw "ConstraintError"%string)
      by (apply store_add_throw; exact Hin) end.
  rewrite E; reflexivity.
Qed.


Lemma drop_ws_head (l : list ascii) :
  match drop_ws l with [] => True | c :: _ => is_ws c = false end.
Proof.
  induction l as [|c l IH]; simpl; auto. destruct (is_ws c) eqn:E; simpl; auto.
Qed.

Lemma drop_ws_fix (l : list ascii) :
  match l with [] => True | c :: _ => is_ws c = false end -> drop_ws l = l.
Proof. destruct l as [|c l]; simpl; auto. intros H; rewrite H; reflexivity. Qed.

Lemma drop_ws_idem (l : list ascii) : drop_ws (drop_ws l) = drop_ws l.
Proof. apply drop_ws_fix, drop_ws_head. Qed.

Lemma drop_ws_suffix (l : list ascii) : exists p, l = p ++ drop_ws l.
Proof.
  induction l as [|c l [p Hp]]; simpl; [exists []; reflexivity|].
  destruct (is_ws c); [exists (c :: p); simpl; rewrite <- Hp; reflexivity|exists []; reflexivity].
Qed.

Lemma trim_idem (s : string) : trim (trim s) = trim s.
Proof.
  unfold trim; rewrite list_ascii_of_string_of_list_ascii.
  set (t := drop_ws (list_ascii_of_string s)).
  set (u := drop_ws (rev t)).
  assert (Hhead : match rev u with [] => True | c :: _ => is_ws c = false end).
  { destruct (drop_ws_suffix (rev t)) as [p Hp]. fold u in Hp.
    assert (Ht : t = rev u ++ rev p) by (rewrite <- rev_app_distr, <- Hp, rev_involutive; reflexivity).
    pose proof (drop_ws_head (list_ascii_of_string s)) as Hh. fold t in Hh.
    rewrite Ht in Hh. destruct (rev u); simpl in *; auto. }
  rewrite (drop_ws_fix _ Hhead), rev_involutive. unfold u at 1. rewrite drop_ws_idem.
  reflexivity.
Qed.

Lemma trim_all_ws (s : string) : all_ws s = true -> trim s = EmptyString.
Proof.
  unfold trim, all_ws; intros H.
  assert (E : drop_ws (list_ascii_of_string s) = []).
  { induction (list_ascii_of_string s) as [|c l IH]; simpl in *; auto.
    apply andb_true_iff in H as [H1 H2]; rewrite H1; auto. }
  rewrite E; reflexivity.
Qed.

Lemma all_ws_substring (s : string) (n m : nat) :
  all_ws s = true -> all_ws (substring n m s) = true.
Proof.
  unfold all_ws; revert n m; induction s as [|c s IH]; intros n m H.
  - destruct n, m; reflexivity.
  - simpl in H; apply andb_true_iff in H as [H1 H2].
    destruct n as [|n]; [destruct m as [|m]|]; simpl; auto.
    rewrite H1; simpl; apply IH; exact H2.
Qed.

Lemma substring_full (s : string) : substring 0 (String.length s) s = s.
Proof. induction s as [|c s IH]; simpl; [reflexivity|rewrite IH; reflexivity]. Qed.

Lemma js_len_zero (s : string) : Chunk.js_len s = 0%Z -> s = EmptyString.
Proof. unfold Chunk.js_len; destruct s; simpl; [reflexivity|lia]. Qed.

Lemma chunk_loop_invariant (P : list string -> Prop) text size overlap :
  (forall start chunks start' chunks',
     P chunks -> Chunk.chunk_step text size overlap start chunks = Chunk.Next start' chunks' ->
     P chunks') ->
  (forall start chunks chunks',
     P chunks -> Chunk.chunk_step text size overlap start chunks = Chunk.Done chunks' ->
     P chunks') ->
  forall fuel start chunks cs,
    P chunks -> Chunk.chunk_loop fuel text size overlap start chunks = Some cs -> P cs.
Proof.
  intros Hn Hd fuel; induction fuel as [|fuel IH]; intros start chunks cs Hp H;
    [discriminate|].
  simpl in H. destruct (Chunk.chunk_step text size overlap start chunks) as [c|s c] eqn:E.
  - inversion H; subst; eapply Hd; eauto.
  - eapply IH; [eapply Hn; eauto|exact H].
Qed.


Open Scope Z_scope.

(** X6. In sliding-window mode every chunk returned by chunkText is non-empty and already trimmed, so trimming it again changes nothing. *)
Theorem chunkText_chunks_trimmed (fuel : nat) (text : string) (chunkSize overlap : Z)
    (cs : list string) :
  Chunk.chunkText_fuel fuel text chunkSize overlap false = Some cs ->
  Forall (fun c => c <> EmptyString /\ trim c = c) cs.
Proof.
  unfold Chunk.chunkText_fuel.
  apply (chunk_loop_invariant (Forall (fun c => c <> EmptyString /\ trim c = c)));
    [| |constructor].
  - intros start chunks start' chunks' Hp H. unfold Chunk.chunk_step in H.
    destruct (start <? Chunk.js_len text); [|discriminate].
    cbv zeta in H.
    set (c := trim _) in H.
    assert (Hc : Forall (fun c => c <> EmptyString /\ trim c = c)
                   (if 0 <? Chunk.js_len c then chunks ++ [c] else chunks)).
    { destruct (0 <? Chunk.js_len c) eqn:E; [|exact Hp].
      apply Forall_app; split; [exact Hp|]. constructor; [|constructor]. split.
      - intros Hc; rewrite Hc in E; discriminate E.
      - unfold c; apply trim_idem. }
    destruct (_ >=? _); [discriminate|]. inversion H; subst; exact Hc.
  - intros start chunks chunks' Hp H. unfold Chunk.chunk_step in H.
    destruct (start <? Chunk.js_len text); [|inversion H; subst; exact Hp].
    cbv zeta in H.
    set (c := trim _) in H.
    assert (Hc : Forall (fun c => c <> EmptyString /\ trim c = c)
                   (if 0 <? Chunk.js_len c then chunks ++ [c] else chunks)).
    { destruct (0 <? Chunk.js_len c) eqn:E; [|exact Hp].
      apply Forall_app; split; [exact Hp|]. constructor; [|constructor]. split.
      - intros Hc; rewrite Hc in E; discriminate E.
      - unfold c; apply trim_idem. }
    destruct (_ >=? _); [inversion H; subst; exact Hc|discriminate].
Qed.

Lemma js_str_slice_all_ws (s : string) (b e : Z) :
  all_ws s = true -> all_ws (Chunk.js_str_slice s b e) = true.
Proof.
  intros H; unfold Chunk.js_str_slice. destruct (_ <? _);
    [apply all_ws_substring; exact H|reflexivity].
Qed.

Lemma chunk_loop_blank (fuel : nat) (text : string) (chunkSize overlap : Z)
    (cs : list string) :
  all_ws text = true ->
  Chunk.chunkText_fuel fuel text chunkSize overlap false = Some cs -> cs = [].
Proof.
  intros Hws. unfold Chunk.chunkText_fuel.
  apply (chunk_loop_invariant (fun l => l = [])); [| |reflexivity].
  - intros start chunks start' chunks' Hp H. unfold Chunk.chunk_step in H.
    destruct (start <? Chunk.js_len text); [|discriminate]. cbv zeta in H.
    rewrite (trim_all_ws _ (js_str_slice_all_ws _ _ _ Hws)) in H. simpl in H.
    destruct (_ >=? _); [discriminate|]. inversion H; subst; reflexivity.
  - intros start chunks chunks' Hp H. unfold Chunk.chunk_step in H.
    destruct (start <? Chunk.js_len text); [|inversion H; subst; reflexivity].
    cbv zeta in H.
    rewrite (trim_all_ws _ (js_str_slice_all_ws _ _ _ Hws)) in H. simpl in H.
    destruct (_ >=? _); [inversion H; subst; reflexivity|discriminate].
Qed.

(** X7. In sliding-window mode chunkText returns no chunk for a text made only of whitespace. *)
Theorem chunkText_blank (fuel : nat) (text : string) (chunkSize overlap : Z)
    (cs : list string) :
  all_ws text = true ->
  Chunk.chunkText_fuel fuel text chunkSize overlap false = Some cs -> cs = [].
Proof. apply chunk_loop_blank. Qed.

(** X8. In sliding-window mode, a text no longer than chunkSize gives one window: chunkText returns the trimmed text as its only chunk, or no chunk when the trimmed text is empty. *)
Theorem chunkText_short (fuel : nat) (text : string) (chunkSize overlap : Z) :
  Chunk.js_len text <= chunkSize ->
  Chunk.chunkText_fuel (S fuel) text chunkSize overlap false =
    Some (if String.eqb (trim text) EmptyString then [] else [trim text]).
Proof.
  intros Hle. unfold Chunk.chunkText_fuel; simpl Chunk.chunk_loop.
  unfold Chunk.chunk_step.
  destruct (0 <? Chunk.js_len text) eqn:Hpos.
  - apply Z.ltb_lt in Hpos.
    rewrite Z.add_0_l, Z.min_r by lia. cbv zeta.
    assert (Hs : Chunk.js_str_slice text 0 (Chunk.js_len text) = text).
    { unfold Chunk.js_str_slice, Chunk.js_clamp.
      replace (0 <? 0) with false by reflexivity.
      replace (Chunk.js_len text <? 0) with false by (symmetry; apply Z.ltb_ge; lia).
      rewrite Z.min_id, (Z.min_l 0) by lia.
      replace (0 <? Chunk.js_len text) with true by (symmetry; apply Z.ltb_lt; lia).
      rewrite Z.sub_0_r. unfold Chunk.js_len; rewrite Nat2Z.id. simpl Z.to_nat.
      apply substring_full. }
    rewrite Hs. replace (Chunk.js_len text >=? Chunk.js_len text) with true by (symmetry; apply Z.geb_le; lia).
    destruct (String.eqb (trim text) EmptyString) eqn:E.
    + apply String.eqb_eq in E; rewrite E; reflexivity.
    + apply String.eqb_neq in E. destruct (trim text) as [|a t]; [congruence|].
      reflexivity.
  - replace (String.eqb (trim text) EmptyString) with true; [reflexivity|].
    assert (H0 : Chunk.js_len text = 0) by (unfold Chunk.js_len in *; apply Z.ltb_ge in Hpos; lia).
    rewrite (js_len_zero _ H0); reflexivity.
Qed.

Close Scope Z_scope.


Lemma row_fold_inv (header : string) (m : Z) (rows : list string) :
  forall (pre : list string) (s : Chunk.RowState) (groups : list (list string)),
    Chunk.out s = map (fun g => (header ++ Chunk.nl ++ join Chunk.nl g)%string) groups ->
    List.concat groups ++ Chunk.currentChunk s = pre ->
    Forall (fun g => g <> []) groups ->
    (groups <> [] -> Chunk.currentChunk s <> []) ->
    Forall row_group_ok (tl (groups ++ [Chunk.currentChunk s])) ->
    exists groups',
      let s' := fold_left (Chunk.row_step header m) rows s in
      Chunk.out s' = map (fun g => (header ++ Chunk.nl ++ join Chunk.nl g)%string) groups' /\
      List.concat groups' ++ Chunk.currentChunk s' = pre ++ rows /\
      Forall (fun g => g <> []) groups' /\
      (pre ++ rows <> [] -> Chunk.currentChunk s' <> []) /\
      Forall row_group_ok (tl (groups' ++ [Chunk.currentChunk s'])).
Proof.
  induction rows as [|line rows IH]; intros pre s groups Hout Hcat Hne Hcur Hrow.
  - exists groups; simpl; rewrite app_nil_r; repeat split; auto.
    intros Hp. destruct groups as [|g gs]; [|apply Hcur; discriminate].
    simpl in Hcat; subst pre; exact Hp.
  - simpl. replace (pre ++ line :: rows) with ((pre ++ [line]) ++ rows)
      by (rewrite <- app_assoc; reflexivity).
    assert (Hs : exists g2,
      Chunk.out (Chunk.row_step header m s line) =
        map (fun g => (header ++ Chunk.nl ++ join Chunk.nl g)%string) g2 /\
      List.concat g2 ++ Chunk.currentChunk (Chunk.row_step header m s line) = pre ++ [line] /\
      Forall (fun g => g <> []) g2 /\
      (g2 <> [] -> Chunk.currentChunk (Chunk.row_step header m s line) <> []) /\
      Forall row_group_ok (tl (g2 ++ [Chunk.currentChunk (Chunk.row_step header m s line)]))).
    { unfold Chunk.row_step.
      match goal with |- context [if ?c then _ else _] => destruct c eqn:E end.
      - apply andb_true_iff in E as [E E3]; apply andb_true_iff in E as [E1 E2].
        assert (Hc : Chunk.currentChunk s <> []).
        { intros Hc; rewrite Hc in E2; discriminate E2. }
        exists (groups ++ [Chunk.currentChunk s]); simpl. repeat split.
        + rewrite Hout, map_app; reflexivity.
        + rewrite List.concat_app; simpl; rewrite app_nil_r, <- Hcat, <- app_assoc; reflexivity.
        + apply Forall_app; split; [exact Hne|constructor; [exact Hc|constructor]].
        + intros _; discriminate.
        + destruct (groups ++ [Chunk.currentChunk s]) as [|g0 gs] eqn:Eg;
            [destruct groups; discriminate|].
          simpl. simpl in Hrow.
          apply Forall_app; split; [exact Hrow|].
          constructor; [exists line, []; split; [reflexivity|exact E1]|constructor].
      - exists groups; simpl. repeat split.
        + exact Hout.
        + rewrite <- Hcat, <- app_assoc; reflexivity.
        + exact Hne.
        + intros _; destruct (Chunk.currentChunk s); discriminate.
        + destruct groups as [|g0 gs]; [constructor|].
          simpl in Hrow |- *. apply Forall_app in Hrow as [H1 H2].
          inversion H2 as [|x y [l [r [Hlr Hl]]] H3]; subst.
          apply Forall_app; split; [exact H1|].
          constructor; [|constructor]. rewrite Hlr. exists l, (r ++ [line]).
          split; [reflexivity|exact Hl]. }
    destruct Hs as [g2 (H1 & H2 & H3 & H4 & H5)].
    exact (IH _ _ _ H1 H2 H3 H4 H5).
Qed.

(** X9. chunkStructuredText returns the whole text as its only chunk when the text has no data row; otherwise it splits the data rows, in order and without loss, into non-empty groups, each group after the first starts with a line beginning with Row, and each chunk is the header line, a newline and the group's lines joined by newlines. *)
Theorem chunkStructuredText_groups (text : string) (maxChunkSize : Z) :
  (structured_rows text = [] /\ Chunk.chunkStructuredText text maxChunkSize = [text]) \/
  (exists groups,
     List.concat groups = structured_rows text /\
     Forall (fun g => g <> []) groups /\
     Forall row_group_ok (tl groups) /\
     Chunk.chunkStructuredText text maxChunkSize =
       map (fun g => (structured_header text ++ Chunk.nl ++ join Chunk.nl g)%string) groups).
Proof.
  unfold Chunk.chunkStructuredText, structured_header, structured_rows.
  destruct (Chunk.take_header (Chunk.split_lines text)) as [hl rest]; simpl fst; simpl snd.
  set (rows := match rest with
               | line :: rest' => if Chunk.includes line "---" then rest' else rest
               | [] => [] end).
  replace (match rest with
           | line :: rest' => if Chunk.includes line "---" then rest' else line :: rest'
           | [] => [] end) with rows by (unfold rows; destruct rest; reflexivity).
  set (header := join Chunk.nl hl). clearbody rows.
  destruct (row_fold_inv header maxChunkSize rows [] (Chunk.mkRowState [] [] 0) []
              eq_refl eq_refl (Forall_nil _) (fun H => False_rect _ (H eq_refl))
              (Forall_nil _))
    as [groups [Hout [Hcat [Hne [Hcur Hrow]]]]].
  simpl in Hcat, Hcur.
  set (s := fold_left _ rows _) in *.
  clearbody s. destruct rows as [|r0 rs].
  - left; split; [reflexivity|].
    apply app_eq_nil in Hcat as [Hg Hc].
    assert (Hg' : groups = []).
    { destruct groups as [|g gs]; [reflexivity|].
      inversion Hne; subst; destruct g; [contradiction|discriminate]. }
    rewrite Hc; simpl; rewrite Hout, Hg'; reflexivity.
  - right. assert (Hc : Chunk.currentChunk s <> []) by (apply Hcur; discriminate).
    exists (groups ++ [Chunk.currentChunk s]). repeat split.
    + rewrite List.concat_app; simpl; rewrite app_nil_r; exact Hcat.
    + apply Forall_app; split; [exact Hne|constructor; [exact Hc|constructor]].
    + exact Hrow.
    + destruct (Nat.eqb (List.length (Chunk.currentChunk s)) 0) eqn:E0.
      { apply Nat.eqb_eq, length_zero_iff_nil in E0; contradiction. }
      rewrite Hout, map_app. simpl.
      destruct (map _ groups); reflexivity.
Qed.

Lemma embed_batches_map_gen (env : Proc.Env) (f : string -> list R) :
  (forall b, b <> [] -> (List.length b <= 90)%nat -> Proc.embed env b = Ok (map f b)) ->
  forall n c, (List.length c <= 90 * n)%nat -> Proc.embed_batches env n c = Ok (map f c).
Proof.
  intros Hf n; induction n as [|n IH]; intros c Hc.
  - destruct c; [reflexivity|simpl in Hc; lia].
  - destruct c as [|x c']; [reflexivity|].
    cbn [Proc.embed_batches].
    rewrite Hf by (discriminate || (rewrite length_firstn; lia)).
    cbn [bind_res]. rewrite IH by (rewrite length_skipn; simpl in Hc |- *; lia).
    cbn [bind_res]. rewrite <- map_app, firstn_skipn; reflexivity.
Qed.

(** X10. If the embedding service embeds each text on its own (on any batch of 1 to 90 texts it returns f of each text), then the batching loop of processStoredDocument returns f of each chunk in chunk order, for any number of chunks. *)
Theorem embed_batches_pointwise (env : Proc.Env) (f : string -> list R) (chunks : list string) :
  (forall b, b <> [] -> (List.length b <= 90)%nat -> Proc.embed env b = Ok (map f b)) ->
  Proc.embed_batches env (List.length chunks) chunks = Ok (map f chunks).
Proof.
  intros Hf; apply embed_batches_map_gen; [exact Hf|lia].
Qed.

Lemma extract_stage_has_text env db d :
  Doc.textContent d <> EmptyString -> Proc.extract_stage env db d = (db, Ok d).
Proof.
  intros H; unfold Proc.extract_stage.
  destruct (String.eqb (Doc.textContent d) EmptyString) eqn:E;
    [apply String.eqb_eq in E; contradiction|reflexivity].
Qed.

(** X13. processStoredDocument on a document that passes its checks, is not CSV and whose stored text is non-empty but only whitespace stores no embedding record, marks the document processed and reports 0 chunks and 0 embeddings, provided the final document update succeeds. *)
Theorem process_blank_document (env : Proc.Env) (db : DB) (did uid : string)
    (d : Doc.StoredDocument) :
  Proc.load_document env db did uid = Ok d ->
  Doc.textContent d <> EmptyString -> all_ws (Doc.textContent d) = true ->
  Proc.isCSV d = false -> Proc.final_update_error env = None ->
  Proc.processStoredDocument env db did uid =
    (mkDB (store_put Doc.id (Proc.with_processed d) (documents db)) (embeddings db),
     Ok (Proc.mkProcessingResult did (Doc.fileName d) 0 0)).
Proof.
  intros Hload Hne Hws Hcsv Hfin.
  unfold Proc.processStoredDocument, Proc.prepare.
  rewrite Hload, extract_stage_has_text by exact Hne.
  replace (String.eqb (Doc.textContent d) EmptyString) with false
    by (symmetry; apply String.eqb_neq; exact Hne).
  rewrite Hcsv.
  destruct (chunkText_fuel_terminates (Doc.textContent d) 1000 200 false)
    as [r Hr]; [lia|].
  rewrite Hr. rewrite (chunk_loop_blank _ _ _ _ _ Hws Hr).
  cbn [List.length Proc.embed_batches bind_res].
  unfold Merge.mergeSimilarChunks; cbn.
  unfold Proc.store_stage; cbn. rewrite Hfin. reflexivity.
Qed.

Lemma extract_stage_ok_fields env db d d' :
  snd (Proc.extract_stage env db d) = Ok d' ->
  Doc.id d' = Doc.id d /\ Doc.userId d' = Doc.userId d.
Proof.
  unfold Proc.extract_stage.
  destruct (_ && _); [|intros H; injection H as <-; auto].
  destruct (Proc.extractText env d); [|discriminate].
  destruct (Proc.text_update_error env); [discriminate|].
  intros H; injection H as <-; auto.
Qed.

Lemma load_document_fields env db did uid d :
  Proc.load_document env db did uid = Ok d ->
  store_get Doc.id did (documents db) = Some d /\ Doc.userId d = uid /\ Doc.processed d = false.
Proof.
  unfold Proc.load_document.
  destruct (negb (Proc.client_set env)); [discriminate|].
  destruct (store_get Doc.id did (documents db)) as [d0|] eqn:G; [|discriminate].
  destruct (negb (String.eqb (Doc.userId d0) uid)) eqn:U; [discriminate|].
  destruct (Doc.processed d0) eqn:P; [discriminate|].
  intros H; injection H as <-. apply negb_false_iff, String.eqb_eq in U. auto.
Qed.

Lemma process_ok_stored env db did uid db' r :
  Proc.processStoredDocument env db did uid = (db', Ok r) ->
  exists d, store_get Doc.id did (documents db') = Some (Proc.with_processed d) /\
            Doc.userId d = uid.
Proof.
  unfold Proc.processStoredDocument.
  destruct (Proc.prepare env db did uid) as [db1 [[d [mc me]]|m]] eqn:P; [|discriminate].
  pose proof (prepare_snd_ok env db did uid d mc me) as Hs. rewrite P in Hs.
  destruct (Hs eq_refl) as (d0 & Hl & He).
  destruct (extract_stage_ok_fields _ _ _ _ He) as [Hid Hu].
  destruct (load_document_fields _ _ _ _ _ Hl) as (Hg & Hu0 & _).
  apply (store_get_key Doc.id) in Hg.
  unfold Proc.store_stage.
  destruct (Proc.add_all env did uid me mc 0 (embeddings db1) None) as [l [m|]];
    [discriminate|].
  destruct (Proc.final_update_error env); [discriminate|].
  intros E; injection E as <- _. exists d; split; [|congruence].
  cbn [documents].
  replace did with (Doc.id (Proc.with_processed d)) by (simpl; congruence).
  apply store_get_put_same.
Qed.

(** X14. After processStoredDocument succeeds on a document, a second call on the same document (with a configured client) fails with Document already processed and changes nothing. *)
Theorem process_twice (env env' : Proc.Env) (db db' : DB) (did uid : string)
    (r : Proc.ProcessingResult) :
  Proc.processStoredDocument env db did uid = (db', Ok r) ->
  Proc.client_set env' = true ->
  Proc.processStoredDocument env' db' did uid = (db', Throw "Document already processed").
Proof.
  intros H Hc. destruct (process_ok_stored _ _ _ _ _ _ H) as (d & Hg & Hu).
  unfold Proc.processStoredDocument, Proc.prepare, Proc.load_document.
  rewrite Hc, Hg. simpl. rewrite Hu, String.eqb_refl. reflexivity.
Qed.

Lemma search_from_store db q uid k t rs r :
  search db q uid k t = Ok rs -> In r rs ->
  Merge.ge_threshold (SR.similarity r) t = true /\
  exists e, In e (embeddings db) /\ Emb.userId e = uid /\
            SR.documentId r = Emb.documentId e /\ SR.id r = Emb.id e /\
            VectorStore.cosineSimilarity q (Emb.embedding e) = Ok (SR.similarity r).
Proof.
  intros H Hin.
  destruct (embeddings_by_userId db uid) as [|e0 es] eqn:Eu.
  - unfold search in H; rewrite Eu in H; injection H as <-; contradiction.
  - rewrite search_unfold in H by (rewrite Eu; discriminate).
    destruct (map_res _ (embeddings_by_userId db uid)) as [res|m] eqn:M; [|discriminate].
    simpl in H; injection H as <-.
    destruct (js_slice0_prefix (sort_desc (filter (fun r => Merge.ge_threshold (SR.similarity r) t) res)) k)
      as [m [Hm _]].
    rewrite Hm in Hin. apply In_firstn_In in Hin.
    apply (Permutation_in _ (proj1 (sort_desc_spec _))) in Hin.
    apply filter_In in Hin as [Hin Hge]. split; [exact Hge|].
    destruct (Forall2_In_r _ _ _ _ (map_res_ok _ _ _ M) Hin) as (e & He & Hf).
    apply search_result_of in Hf as [Hr Hc].
    unfold embeddings_by_userId in He; apply filter_In in He as [He Hu].
    apply String.eqb_eq in Hu.
    exists e; repeat split; auto; rewrite Hr; reflexivity.
Qed.

(** X15. After deleteDocument(id), no search result comes from that document, and processStoredDocument on the id fails with Document not found and changes nothing. *)
Theorem delete_then_search_and_process (db : DB) (did : string) :
  let db' := fst (Proc.deleteDocument db did) in
  (forall q uid k t rs r, search db' q uid k t = Ok rs -> In r rs -> SR.documentId r <> did) /\
  (forall env uid, Proc.client_set env = true ->
     Proc.processStoredDocument env db' did uid = (db', Throw "Document not found")).
Proof.
  intros db'. destruct (deleteDocument_spec db did) as (_ & Hdoc & Hemb & _).
  fold db' in Hdoc, Hemb. split.
  - intros q uid k t rs r H Hin E.
    destruct (search_from_store _ _ _ _ _ _ _ H Hin) as (_ & e & He & _ & Hd & _).
    assert (Hf : In e (embeddings_by_documentId db' did)).
    { apply filter_In; split; [exact He|apply String.eqb_eq; congruence]. }
    rewrite Hemb in Hf; contradiction.
  - intros env uid Hc.
    unfold Proc.processStoredDocument, Proc.prepare, Proc.load_document.
    rewrite Hc, Hdoc. reflexivity.
Qed.

Section KeySortLemmas.
Context {A : Type} (key : A -> Z).


Lemma insert_key_desc_perm x l : Permutation (insert_key_desc key x l) (x :: l).
Proof.
  induction l as [|y l IH]; simpl; [auto|].
  destruct (key y <? key x)%Z; [auto|].
  rewrite IH; apply perm_swap.
Qed.

Lemma insert_key_desc_sorted x l :
  Sorted (key_ge key) l -> Sorted (key_ge key) (insert_key_desc key x l).
Proof.
  induction l as [|y l IH]; simpl; intros Hs; [repeat constructor|].
  destruct (Z.ltb_spec (key y) (key x)) as [H|H].
  - constructor; [exact Hs|constructor; unfold key_ge; lia].
  - apply Sorted_inv in Hs as [Hs Hh]. constructor; [apply IH; exact Hs|].
    destruct l as [|z l]; simpl; [constructor; unfold key_ge; lia|].
    destruct (key z <? key x)%Z; constructor; unfold key_ge in *; [lia|].
    inversion Hh; assumption.
Qed.

Lemma sort_key_desc_spec l :
  Permutation (sort_key_desc key l) l /\ Sorted (key_ge key) (sort_key_desc key l).
Proof.
  unfold sort_key_desc.
  assert (G : forall acc, Sorted (key_ge key) acc ->
            Permutation (fold_left (fun acc x => insert_key_desc key x acc) l acc) (l ++ acc) /\
            Sorted (key_ge key) (fold_left (fun acc x => insert_key_desc key x acc) l acc)).
  { induction l as [|x l IH]; intros acc Hs; simpl; [auto|].
    destruct (IH _ (insert_key_desc_sorted x acc Hs)) as [H1 H2]; split; [|exact H2].
    rewrite H1, insert_key_desc_perm. apply Permutation_sym, Permutation_middle. }
  destruct (G [] (Sorted_nil _)) as [H1 H2]; rewrite app_nil_r in H1; auto.
Qed.

Lemma insert_key_asc_perm x l : Permutation (insert_key_asc key x l) (x :: l).
Proof.
  induction l as [|y l IH]; simpl; [auto|].
  destruct (key x <? key y)%Z; [auto|].
  rewrite IH; apply perm_swap.
Qed.

Lemma insert_key_asc_sorted x l :
  Sorted (key_le key) l -> Sorted (key_le key) (insert_key_asc key x l).
Proof.
  induction l as [|y l IH]; simpl; intros Hs; [repeat constructor|].
  destruct (Z.ltb_spec (key x) (key y)) as [H|H].
  - constructor; [exact Hs|constructor; unfold key_le; lia].
  - apply Sorted_inv in Hs as [Hs Hh]. constructor; [apply IH; exact Hs|].
    destruct l as [|z l]; simpl; [constructor; unfold key_le; lia|].
    destruct (key x <? key z)%Z; constructor; unfold key_le in *; [lia|].
    inversion Hh; assumption.
Qed.

Lemma sort_key_asc_spec l :
  Permutation (sort_key_asc key l) l /\ Sorted (key_le key) (sort_key_asc key l).
Proof.
  unfold sort_key_asc.
  assert (G : forall acc, Sorted (key_le key) acc ->
            Permutation (fold_left (fun acc x => insert_key_asc key x acc) l acc) (l ++ acc) /\
            Sorted (key_le key) (fold_left (fun acc x => insert_key_asc key x acc) l acc)).
  { induction l as [|x l IH]; intros acc Hs; simpl; [auto|].
    destruct (IH _ (insert_key_asc_sorted x acc Hs)) as [H1 H2]; split; [|exact H2].
    rewrite H1, insert_key_asc_perm. apply Permutation_sym, Permutation_middle. }
  destruct (G [] (Sorted_nil _)) as [H1 H2]; rewrite app_nil_r in H1; auto.
Qed.

End KeySortLemmas.

(** X16. getUserDocuments returns one summary per document of the user and none for documents of other users, sorted by upload time, newest first. *)
Theorem getUserDocuments_spec (db : DB) (uid : string) :
  (forall s, In s (Manage.getUserDocuments db uid) <->
     exists d, In d (documents db) /\ Doc.userId d = uid /\ s = Manage.summary db d) /\
  List.length (Manage.getUserDocuments db uid) = List.length (Manage.documents_by_userId db uid) /\
  Sorted (key_ge Manage.uploadedAt) (Manage.getUserDocuments db uid).
Proof.
  unfold Manage.getUserDocuments.
  destruct (sort_key_desc_spec Manage.uploadedAt
              (map (Manage.summary db) (Manage.documents_by_userId db uid))) as [Hp Hs].
  split; [|split; [rewrite (Permutation_length Hp), length_map; reflexivity|exact Hs]].
  intros s; split.
  - intros H; apply (Permutation_in _ Hp), in_map_iff in H as (d & <- & Hd).
    unfold Manage.documents_by_userId in Hd; apply filter_In in Hd as [Hd Hu].
    apply String.eqb_eq in Hu; eauto.
  - intros (d & Hd & Hu & ->). apply (Permutation_in _ (Permutation_sym Hp)), in_map.
    apply filter_In; split; [exact Hd|apply String.eqb_eq; exact Hu].
Qed.

(** X17. getDocumentDetails returns null exactly when no document has the id; otherwise it returns the document with that id and all of its embedding records, sorted by chunkIndex ascending. *)
Theorem getDocumentDetails_spec (db : DB) (did : string) :
  (Manage.getDocumentDetails db did = None <->
     forall d, In d (documents db) -> Doc.id d <> did) /\
  (forall d cs, Manage.getDocumentDetails db did = Some (d, cs) ->
     In d (documents db) /\ Doc.id d = did /\
     Permutation cs (embeddings_by_documentId db did) /\
     Sorted (key_le Emb.chunkIndex) cs).
Proof.
  unfold Manage.getDocumentDetails. split.
  - destruct (find (fun doc => String.eqb (Doc.id doc) did) (documents db)) as [d|] eqn:F.
    + split; [discriminate|]. intros H.
      apply find_some in F as [Hin E]; apply String.eqb_eq in E.
      exfalso; exact (H d Hin E).
    + split; [intros _ d Hd E|reflexivity].
      apply (find_none _ _ F) in Hd. rewrite E, String.eqb_refl in Hd; discriminate.
  - intros d cs.
    destruct (find (fun doc => String.eqb (Doc.id doc) did) (documents db)) as [d'|] eqn:F;
      [|discriminate].
    intros H; injection H as <- <-.
    apply find_some in F as [Hin E]; apply String.eqb_eq in E.
    destruct (sort_key_asc_spec Emb.chunkIndex (embeddings_by_documentId db did)).
    auto.
Qed.





Lemma fold_min_spec (l : list Z) (x : Z) :
  (fold_left Z.min l x <= x)%Z /\ (forall y, In y l -> fold_left Z.min l x <= y)%Z /\
  (fold_left Z.min l x = x \/ In (fold_left Z.min l x) l).
Proof.
  revert x; induction l as [|y l IH]; intros x; simpl; [split; [lia|split; [tauto|auto]]|].
  destruct (IH (Z.min x y)) as (H1 & H2 & H3). split; [lia|split].
  - intros z [<-|Hz]; [lia|auto].
  - destruct H3 as [H3|H3]; [|auto]. rewrite H3.
    destruct (Z.min_spec x y) as [[_ E]|[_ E]]; rewrite E; auto.
Qed.

Lemma fold_max_spec (l : list Z) (x : Z) :
  (x <= fold_left Z.max l x)%Z /\ (forall y, In y l -> y <= fold_left Z.max l x)%Z /\
  (fold_left Z.max l x = x \/ In (fold_left Z.max l x) l).
Proof.
  revert x; induction l as [|y l IH]; intros x; simpl; [split; [lia|split; [tauto|auto]]|].
  destruct (IH (Z.max x y)) as (H1 & H2 & H3). split; [lia|split].
  - intros z [<-|Hz]; [lia|auto].
  - destruct H3 as [H3|H3]; [|auto]. rewrite H3.
    destruct (Z.max_spec x y) as [[_ E]|[_ E]]; rewrite E; auto.
Qed.

Lemma list_min_spec (l : list Z) (m : Z) :
  Manage.list_min l = Some m -> In m l /\ (forall y, In y l -> m <= y)%Z.
Proof.
  destruct l as [|x l]; simpl; [discriminate|]. intros H; injection H as <-.
  destruct (fold_min_spec l x) as (H1 & H2 & H3). split.
  - destruct H3 as [H3|H3]; [left; auto|right; auto].
  - intros y [<-|Hy]; auto.
Qed.

Lemma list_max_spec (l : list Z) (m : Z) :
  Manage.list_max l = Some m -> In m l /\ (forall y, In y l -> y <= m)%Z.
Proof.
  destruct l as [|x l]; simpl; [discriminate|]. intros H; injection H as <-.
  destruct (fold_max_spec l x) as (H1 & H2 & H3). split.
  - destruct H3 as [H3|H3]; [left; auto|right; auto].
  - intros y [<-|Hy]; auto.
Qed.

(** X19. getStorageStats reports no oldest and no newest date exactly when the user has no document; otherwise the oldest (newest) date is the upload time of one of the user's documents and no document of the user is older (newer). *)
Theorem getStorageStats_dates (db : DB) (uid : string) :
  let st := Manage.getStorageStats db uid in
  (Manage.oldestDocument st = None <-> Manage.totalDocuments st = 0%nat) /\
  (Manage.newestDocument st = None <-> Manage.totalDocuments st = 0%nat) /\
  (forall o, Manage.oldestDocument st = Some o ->
     (exists d, In d (documents db) /\ Doc.userId d = uid /\ Doc.uploadedAt d = o) /\
     forall d, In d (documents db) -> Doc.userId d = uid -> (o <= Doc.uploadedAt d)%Z) /\
  (forall n, Manage.newestDocument st = Some n ->
     (exists d, In d (documents db) /\ Doc.userId d = uid /\ Doc.uploadedAt d = n) /\
     forall d, In d (documents db) -> Doc.userId d = uid -> (Doc.uploadedAt d <= n)%Z).
Proof.
  intros st; unfold st, Manage.getStorageStats; cbn [Manage.oldestDocument
    Manage.newestDocument Manage.totalDocuments].
  assert (Hin : forall d, In d (Manage.documents_by_userId db uid) <->
                          In d (documents db) /\ Doc.userId d = uid).
  { intros d; unfold Manage.documents_by_userId; rewrite filter_In, String.eqb_eq; tauto. }
  split; [|split; [|split]].
  - destruct (Manage.documents_by_userId db uid); simpl; split; congruence.
  - destruct (Manage.documents_by_userId db uid); simpl; split; congruence.
  - intros o H; apply list_min_spec in H as [H1 H2].
    apply in_map_iff in H1 as (d & Hd & Hdin). split.
    + exists d; apply Hin in Hdin as [? ?]; auto.
    + intros d' Hd' Hu; apply H2, in_map, Hin; auto.
  - intros n H; apply list_max_spec in H as [H1 H2].
    apply in_map_iff in H1 as (d & Hd & Hdin). split.
    + exists d; apply Hin in Hdin as [? ?]; auto.
    + intros d' Hd' Hu; apply H2, in_map, Hin; auto.
Qed.

Lemma existsb_eqb_In (x : string) (l : list string) :
  existsb (String.eqb x) l = true <-> In x l.
Proof.
  rewrite existsb_exists; split.
  - intros [y [Hy E]]; apply String.eqb_eq in E; subst; exact Hy.
  - intros H; exists x; split; [exact H|apply String.eqb_refl].
Qed.

Lemma dedup_aux_spec (l seen : list string) :
  NoDup (dedup_aux seen l) /\
  (forall x, In x (dedup_aux seen l) <-> In x l /\ ~ In x seen) /\
  (List.length (dedup_aux seen l) <= List.length l)%nat.
Proof.
  revert seen; induction l as [|y l IH]; intros seen; simpl.
  - split; [constructor|split; [tauto|lia]].
  - destruct (existsb (String.eqb y) seen) eqn:E.
    + apply existsb_eqb_In in E. destruct (IH seen) as (H1 & H2 & H3).
      split; [exact H1|split; [|lia]].
      intros x; rewrite H2; split; [tauto|intros [[<-|Hx] Hs]; [contradiction|auto]].
    + destruct (IH (y :: seen)) as (H1 & H2 & H3).
      split; [constructor; [rewrite H2; simpl; tauto|exact H1]|split; [|simpl; lia]].
      intros x; simpl; rewrite H2; simpl.
      assert (~ In y seen) by (rewrite <- existsb_eqb_In, E; discriminate).
      split.
      * intros [<-|[Hx Hs]]; [tauto|tauto].
      * intros [[<-|Hx] Hs]; [auto|]. destruct (String.eqb_spec y x); [auto|right; tauto].
Qed.

(** X20. The vector store's getStats counts no more distinct documents than embeddings, zero documents exactly when zero embeddings, and as many documents as there are distinct documentIds among the user's embedding records. *)
Theorem getStats_spec (db : DB) (uid : string) :
  let st := VS.getStats db uid in
  (VS.uniqueDocuments st <= VS.totalEmbeddings st)%nat /\
  (VS.uniqueDocuments st = 0%nat <-> VS.totalEmbeddings st = 0%nat) /\
  (forall ds, NoDup ds ->
     (forall x, In x ds <-> exists e, In e (embeddings db) /\ Emb.userId e = uid /\
                                      Emb.documentId e = x) ->
     VS.uniqueDocuments st = List.length ds).
Proof.
  intros st; unfold st, VS.getStats; cbn [VS.uniqueDocuments VS.totalEmbeddings].
  destruct (dedup_aux_spec (map Emb.documentId (embeddings_by_userId db uid)) [])
    as (H1 & H2 & H3).
  unfold dedup; rewrite length_map in H3. split; [exact H3|split].
  - destruct (embeddings_by_userId db uid) as [|e es] eqn:E; [simpl; tauto|].
    split; [|discriminate]. intros H0.
    assert (Hi : In (Emb.documentId e) (dedup_aux [] (map Emb.documentId (e :: es))))
      by (apply H2; split; [left; reflexivity|auto]).
    destruct (dedup_aux [] _); [contradiction|discriminate].
  - intros ds Hnd Hds.
    assert (Heq : forall x, In x ds <-> In x (dedup_aux [] (map Emb.documentId
                                                  (embeddings_by_userId db uid)))).
    { intros x; rewrite Hds, H2, in_map_iff. unfold embeddings_by_userId.
      split.
      - intros (e & He & Hu & Hx). split; [|auto]. exists e; split; [exact Hx|].
        apply filter_In; split; [exact He|apply String.eqb_eq; exact Hu].
      - intros [(e & Hx & He) _]. apply filter_In in He as [He Hu].
        apply String.eqb_eq in Hu. eauto. }
    apply Nat.le_antisymm; apply NoDup_incl_length; auto; intros x; apply Heq.
Qed.

Lemma Sorted_firstn {A} (Rel : A -> A -> Prop) (l : list A) (n : nat) :
  Sorted Rel l -> Sorted Rel (firstn n l).
Proof.
  revert n; induction l as [|x l IH]; intros [|n] Hs; simpl; [constructor|constructor|constructor|].
  apply Sorted_inv in Hs as [Hs Hh]. constructor; [apply IH; exact Hs|].
  destruct l as [|y l]; [destruct n; constructor|].
  destruct n; simpl; constructor. inversion Hh; assumption.
Qed.

Lemma NoDup_firstn {A} (l : list A) (n : nat) : NoDup l -> NoDup (firstn n l).
Proof.
  intros H; rewrite <- (firstn_skipn n l) in H. apply NoDup_app_remove_r in H; exact H.
Qed.

Section MultiSearch.
Variables (db : DB) (uid : string) (thr : R).


Lemma add_unique_inv st r : ms_inv db uid thr st -> ms_ok db uid thr r -> ms_inv db uid thr (VS.add_unique st r).
Proof.
  destruct st as [seen all]; unfold VS.add_unique, ms_inv; simpl.
  intros (H1 & H2 & H3) Hr.
  destruct (existsb (String.eqb (SR.id r)) seen) eqn:E; simpl; [auto|].
  assert (Hn : ~ In (SR.id r) (map SR.id all)).
  { rewrite <- H2, <- existsb_eqb_In, E; discriminate. }
  rewrite map_app; simpl. split; [|split].
  - apply NoDup_app; [exact H1|repeat constructor; auto|].
    intros x Hx [<-|[]]; contradiction.
  - intros x; rewrite in_app_iff, H2; simpl; tauto.
  - apply Forall_app; split; [exact H3|constructor; [exact Hr|constructor]].
Qed.

Lemma collect_inv topK qs st st' :
  ms_inv db uid thr st -> VS.collect db uid topK thr qs st = Ok st' -> ms_inv db uid thr st'.
Proof.
  revert st; induction qs as [|q qs IH]; intros st Hi H; simpl in H.
  - injection H as <-; exact Hi.
  - destruct (search db q uid topK thr) as [rs|m] eqn:S; [|discriminate].
    simpl in H. refine (IH _ _ H).
    assert (Hall : forall r, In r rs -> ms_ok db uid thr r).
    { intros r Hr. destruct (search_from_store _ _ _ _ _ _ _ S Hr)
        as (Hge & e & He & Hu & Hd & Hid & _).
      apply ge_threshold_true in Hge. split; [exact Hge|eauto 7]. }
    clear S IH H. revert st Hi; induction rs as [|r rs IHr]; intros st Hi; simpl; [exact Hi|].
    apply IHr; [intros; apply Hall; right; auto|].
    apply add_unique_inv; [exact Hi|apply Hall; left; auto].
Qed.

End MultiSearch.

(** X21. A successful multiSearch returns results with distinct ids, sorted by descending similarity, at most topK of them when topK >= 0, each with similarity at least the threshold and taken from one of the user's own embedding records. *)
Theorem multiSearch_spec (db : DB) (qs : list (list R)) (uid : string) (topK : Z) (thr : R)
    (rs : list SR.SearchResult) :
  VS.multiSearch db qs uid topK thr = Ok rs ->
  NoDup (map SR.id rs) /\ Sorted sim_desc rs /\
  ((0 <= topK)%Z -> (Z.of_nat (List.length rs) <= topK)%Z) /\
  Forall (fun r => thr <= SR.similarity r /\
                   exists e, In e (embeddings db) /\ Emb.userId e = uid /\
                             SR.documentId r = Emb.documentId e /\ SR.id r = Emb.id e) rs.
Proof.
  unfold VS.multiSearch.
  destruct (VS.collect db uid topK thr qs ([], [])) as [st|m] eqn:C; [|discriminate].
  simpl; intros H; injection H as <-.
  assert (Hi : ms_inv db uid thr st).
  { apply (collect_inv db uid thr topK qs ([], [])); [|exact C].
    split; [constructor|split; [simpl; tauto|constructor]]. }
  destruct Hi as (H1 & _ & H3).
  destruct (sort_desc_spec (snd st)) as [Hp Hs].
  destruct (js_slice0_prefix (sort_desc (snd st)) topK) as [m [Hm Hk]].
  split; [|split; [|split]].
  - rewrite Hm, <- firstn_map. apply NoDup_firstn.
    apply (Permutation_NoDup (Permutation_map SR.id (Permutation_sym Hp))); exact H1.
  - rewrite Hm; apply Sorted_firstn; exact Hs.
  - intros Hk0; apply (proj2 (Hk Hk0)).
  - rewrite Hm. apply Forall_forall; intros r Hr.
    apply In_firstn_In, (Permutation_in _ Hp) in Hr.
    rewrite Forall_forall in H3; apply H3; exact Hr.
Qed.

Lemma Sorted_snoc {A} (Rel : A -> A -> Prop) (l : list A) (x : A) :
  Sorted Rel l -> (forall y, In y l -> Rel y x) -> Sorted Rel (l ++ [x]).
Proof.
  induction l as [|y l IH]; intros Hs Hr; simpl; [repeat constructor|].
  apply Sorted_inv in Hs as [Hs Hh]. constructor.
  - apply IH; [exact Hs|intros; apply Hr; right; auto].
  - destruct l as [|z l]; simpl; constructor; [apply Hr; left; auto|inversion Hh; auto].
Qed.

Lemma StronglySorted_app_rel {A} (Rel : A -> A -> Prop) (a b : list A) :
  StronglySorted Rel (a ++ b) -> forall x y, In x a -> In y b -> Rel x y.
Proof.
  induction a as [|z a IH]; simpl; [contradiction|].
  intros Hs x y [<-|Hx] Hy; apply StronglySorted_inv in Hs as [Hs Hf].
  - rewrite Forall_forall in Hf; apply Hf, in_or_app; right; exact Hy.
  - apply IH; auto.
Qed.

Lemma rev_sorted_ge {A} (key : A -> Z) (l : list A) :
  Sorted (key_ge key) l -> Sorted (key_le key) (rev l).
Proof.
  intros Hs. apply Sorted_StronglySorted in Hs;
    [|intros a b c; unfold key_ge; lia].
  induction l as [|x l IH]; simpl; [constructor|].
  apply StronglySorted_inv in Hs as [Hs Hf].
  apply Sorted_snoc; [apply IH; exact Hs|].
  intros y Hy; apply in_rev in Hy. rewrite Forall_forall in Hf.
  specialize (Hf y Hy); unfold key_ge, key_le in *; lia.
Qed.

(** X22. getChatHistory without a limit returns all of the user's messages, oldest first; with a positive limit n it returns min(n, count) of the user's messages, oldest first, and no message left out is newer than a message returned. *)
Theorem getChatHistory_recent (hist : list Agent.ChatMessage) (uid : string) (n : Z) :
  (0 < n)%Z ->
  let all := History.getChatHistory hist uid None in
  let h := History.getChatHistory hist uid (Some n) in
  Permutation all (History.messages_by_userId hist uid) /\
  Sorted (key_le Agent.timestamp) all /\
  Sorted (key_le Agent.timestamp) h /\
  List.length h = Nat.min (Z.to_nat n) (List.length (History.messages_by_userId hist uid)) /\
  (forall m, In m h -> In m hist /\ Agent.userId m = uid) /\
  (forall m m', In m h -> In m' (History.messages_by_userId hist uid) -> ~ In m' h ->
     (Agent.timestamp m' <= Agent.timestamp m)%Z).
Proof.
  intros Hn all h. unfold all, h, History.getChatHistory.
  replace (n =? 0)%Z with false by (symmetry; apply Z.eqb_neq; lia).
  set (ms := sort_key_desc Agent.timestamp (History.messages_by_userId hist uid)).
  destruct (sort_key_desc_spec Agent.timestamp (History.messages_by_userId hist uid))
    as [Hp Hs]; fold ms in Hp, Hs.
  destruct (js_slice0_prefix ms n) as [m0 [_ Hk]]. destruct (Hk ltac:(lia)) as [Hf _]; clear Hk.
  rewrite Hf. split; [|split; [|split; [|split; [|split]]]].
  - rewrite <- Hp; apply Permutation_sym, Permutation_rev.
  - apply rev_sorted_ge; exact Hs.
  - apply rev_sorted_ge, Sorted_firstn; exact Hs.
  - rewrite length_rev, length_firstn, (Permutation_length Hp); reflexivity.
  - intros m Hm; apply in_rev, In_firstn_In, (Permutation_in _ Hp) in Hm.
    unfold History.messages_by_userId in Hm; apply filter_In in Hm as [Hm Hu].
    apply String.eqb_eq in Hu; auto.
  - intros m m' Hm Hm' Hnot. rewrite <- in_rev in Hm, Hnot.
    apply (Permutation_in _ (Permutation_sym Hp)) in Hm'.
    rewrite <- (firstn_skipn (Z.to_nat n) ms) in Hm'.
    apply in_app_or in Hm' as [Hm'|Hm']; [contradiction|].
    apply Sorted_StronglySorted in Hs; [|intros a b c; unfold key_ge; lia].
    rewrite <- (firstn_skipn (Z.to_nat n) ms) in Hs.
    exact (StronglySorted_app_rel _ _ _ Hs _ _ Hm Hm').
Qed.

Lemma getChatHistory_None_perm (hist : list Agent.ChatMessage) (uid : string) :
  Permutation (History.getChatHistory hist uid None) (History.messages_by_userId hist uid).
Proof.
  unfold History.getChatHistory. rewrite <- Permutation_rev.
  apply (proj1 (sort_key_desc_spec _ _)).
Qed.

Lemma filter_filter_and {A} (f g : A -> bool) (l : list A) :
  filter f (filter g l) = filter (fun x => g x && f x) l.
Proof.
  induction l as [|x l IH]; simpl; [reflexivity|].
  destruct (g x), (f x) eqn:E; simpl; rewrite ?E, ?IH; reflexivity.
Qed.

Lemma fold_delete_filter {V} (key : V -> string) (L h : list V) :
  fold_left (fun h m => store_delete key (key m) h) L h =
  filter (fun x => forallb (fun m => negb (String.eqb (key x) (key m))) L) h.
Proof.
  revert h; induction L as [|m L IH]; intros h; simpl.
  - symmetry; apply forallb_filter_id, forallb_forall; reflexivity.
  - rewrite IH. unfold store_delete. rewrite filter_filter_and. reflexivity.
Qed.

Lemma NoDup_map_inj {A B} (f : A -> B) (l : list A) (x y : A) :
  NoDup (map f l) -> In x l -> In y l -> f x = f y -> x = y.
Proof.
  induction l as [|z l IH]; simpl; [contradiction|].
  intros Hnd Hx Hy E; inversion Hnd as [|a b Hn Hnd']; subst.
  destruct Hx as [<-|Hx], Hy as [<-|Hy]; auto.
  - exfalso; apply Hn; rewrite E; apply in_map; exact Hy.
  - exfalso; apply Hn; rewrite <- E; apply in_map; exact Hx.
Qed.

(** X23. When message ids are distinct, clearHistory removes exactly the user's messages and keeps the messages of other users in order. *)
Theorem clearHistory_spec (hist : list Agent.ChatMessage) (uid : string) :
  NoDup (map Agent.id hist) ->
  History.clearHistory hist uid =
  filter (fun m => negb (String.eqb (Agent.userId m) uid)) hist.
Proof.
  intros Hnd. unfold History.clearHistory. rewrite (fold_delete_filter Agent.id).
  apply filter_ext_in; intros x Hx.
  pose proof (getChatHistory_None_perm hist uid) as Hp.
  destruct (String.eqb_spec (Agent.userId x) uid) as [Hu|Hu]; simpl.
  - apply not_true_iff_false; rewrite forallb_forall; intros H.
    assert (Hin : In x (History.getChatHistory hist uid None)).
    { apply (Permutation_in _ (Permutation_sym Hp)), filter_In; split;
        [exact Hx|apply String.eqb_eq; exact Hu]. }
    specialize (H x Hin); rewrite String.eqb_refl in H; discriminate.
  - apply forallb_forall; intros m Hm.
    apply (Permutation_in _ Hp) in Hm. apply filter_In in Hm as [Hm Hmu].
    apply String.eqb_eq in Hmu.
    apply negb_true_iff, String.eqb_neq; intros E.
    apply Hu; rewrite (NoDup_map_inj _ _ _ _ Hnd Hx Hm E); exact Hmu.
Qed.

Lemma storeMessage_perm env n uid r c dids hist hist' :
  Agent.storeMessage env n uid r c dids hist = Ok hist' ->
  Permutation hist'
    (Agent.mkChatMessage (Agent.generateUUID env n) uid r c (Agent.now env n) dids :: hist).
Proof.
  unfold Agent.storeMessage. destruct (Agent.message_error env n); [discriminate|].
  apply store_add_perm.
Qed.

(** X24. A successful processQuery adds exactly two messages to the history: the user's query and the assistant's answer with its sources; a failed processQuery adds either nothing or only the user's query. *)
Theorem processQuery_history (env : Agent.Env) (cfg : Agent.AgentConfig) (uid : string)
    (db : DB) (hist : list Agent.ChatMessage) (query : string) :
  let u := Agent.mkChatMessage (Agent.generateUUID env 0) uid Agent.user query
             (Agent.now env 0) None in
  (forall hist' resp, Agent.processQuery env cfg uid db hist query = (hist', Ok resp) ->
     Permutation hist'
       (Agent.mkChatMessage (Agent.generateUUID env 1) uid Agent.assistant
          (Agent.response_message resp) (Agent.now env 1) (Agent.sources resp) :: u :: hist)) /\
  (forall hist' m, Agent.processQuery env cfg uid db hist query = (hist', Throw m) ->
     hist' = hist \/ Permutation hist' (u :: hist)).
Proof.
  intros u. unfold Agent.processQuery.
  destruct (negb (Agent.client_set env)).
  { split; intros ? ? H; injection H as <- ?; [discriminate|auto]. }
  destruct (if Agent.useRAG cfg then _ else _) as [[[ctx srcs] names]|m0].
  2:{ split; intros ? ? H; injection H as <- ?; [discriminate|auto]. }
  destruct (Agent.chat_service env _) as [response|m0].
  2:{ split; intros ? ? H; injection H as <- ?; [discriminate|auto]. }
  destruct (Agent.storeMessage env 0 uid Agent.user query None hist) as [hist1|m0] eqn:S0.
  2:{ split; intros ? ? H; injection H as <- ?; [discriminate|auto]. }
  apply storeMessage_perm in S0.
  destruct (Agent.storeMessage env 1 uid Agent.assistant response srcs hist1) as [hist2|m0] eqn:S1.
  - apply storeMessage_perm in S1. split; [|intros ? ? H; discriminate H].
    intros hist' resp H; injection H as <- <-; simpl.
    rewrite S1; constructor; exact S0.
  - split; [intros ? ? H; discriminate H|].
    intros hist' m H; injection H as <- _; right; exact S0.
Qed.

(** X25. With useRAG off, a successful processQuery returns no sources and no source names, and its answer is the chat service's reply to a request that carries no documents. *)
Theorem processQuery_without_rag (env : Agent.Env) (cfg : Agent.AgentConfig) (uid : string)
    (db : DB) (hist hist' : list Agent.ChatMessage) (query : string)
    (resp : Agent.AgentResponse) :
  Agent.useRAG cfg = false ->
  Agent.processQuery env cfg uid db hist query = (hist', Ok resp) ->
  Agent.sources resp = None /\ Agent.sourceNames resp = None /\
  Agent.chat_service env
    (Agent.chat_request query None "command-a-03-2025" (Agent.cfg_temperature cfg)
       (Agent.maxTokens cfg) (Agent.systemPrompt cfg)) = Ok (Agent.response_message resp) /\
  Agent.request_documents
    (Agent.chat_request query None "command-a-03-2025" (Agent.cfg_temperature cfg)
       (Agent.maxTokens cfg) (Agent.systemPrompt cfg)) = None.
Proof.
  intros Hrag. unfold Agent.processQuery. rewrite Hrag.
  destruct (negb (Agent.client_set env)); [discriminate|].
  destruct (Agent.chat_service env _) as [response|m0] eqn:C; [|discriminate].
  destruct (Agent.storeMessage env 0 uid Agent.user query None hist); [|discriminate].
  destruct (Agent.storeMessage env 1 uid Agent.assistant response None _); [|discriminate].
  intros H; injection H as _ <-. auto.
Qed.

Lemma search_length db q uid k t rs :
  search db q uid k t = Ok rs -> (0 <= k)%Z -> (Z.of_nat (List.length rs) <= k)%Z.
Proof.
  intros H Hk.
  destruct (embeddings_by_userId db uid) as [|e0 es] eqn:Eu.
  - unfold search in H; rewrite Eu in H; injection H as <-; simpl; lia.
  - rewrite search_unfold in H by (rewrite Eu; discriminate).
    destruct (map_res _ (embeddings_by_userId db uid)) as [res|m] eqn:M; [|discriminate].
    simpl in H; injection H as <-.
    match goal with |- context [js_slice0 ?l k] =>
      destruct (js_slice0_prefix l k) as [m0 [_ Hk2]] end.
    apply (proj2 (Hk2 Hk)).
Qed.

(** X26. A successful retrieveContext returns distinct source ids, no more sources than documents, at most topK documents when topK >= 0, and only sources that are the documentId of one of the user's embedding records. *)
Theorem retrieveContext_spec (env : Agent.Env) (cfg : Agent.AgentConfig) (db : DB)
    (uid query : string) (docs srcs : list string) :
  Agent.retrieveContext env cfg db uid query = Ok (docs, srcs) ->
  NoDup srcs /\ (List.length srcs <= List.length docs)%nat /\
  ((0 <= Agent.topK cfg)%Z -> (Z.of_nat (List.length docs) <= Agent.topK cfg)%Z) /\
  (forall s, In s srcs -> exists e, In e (embeddings db) /\ Emb.userId e = uid /\
                                    Emb.documentId e = s).
Proof.
  unfold Agent.retrieveContext.
  destruct (negb (Agent.client_set env)).
  { intros H; injection H as <- <-; simpl; split; [constructor|split; [lia|split; [lia|tauto]]]. }
  destruct (Agent.embed_query env query) as [[|qe es]|m]; simpl; [| |discriminate].
  { intros H; injection H as <- <-; simpl; split; [constructor|split; [lia|split; [lia|tauto]]]. }
  destruct (search db qe uid (Agent.topK cfg) (Agent.similarityThreshold cfg)) as [rs|m] eqn:S;
    simpl; [|discriminate].
  intros H; injection H as <- <-.
  destruct (dedup_aux_spec (map SR.documentId rs) []) as (H1 & H2 & H3).
  unfold dedup. split; [exact H1|split; [rewrite length_map in H3; rewrite length_map; exact H3|split]].
  - intros Hk; rewrite length_map; exact (search_length _ _ _ _ _ _ S Hk).
  - intros s Hs. apply H2 in Hs as [Hs _]. apply in_map_iff in Hs as (r & <- & Hr).
    destruct (search_from_store _ _ _ _ _ _ _ S Hr) as (_ & e & He & Hu & Hd & _).
    exists e; auto.
Qed.

Lemma index_docs_spec (k : nat) (ts : list string) :
  map fst (Agent.index_docs k ts) = seq k (List.length ts) /\
  map snd (Agent.index_docs k ts) = ts.
Proof.
  revert k; induction ts as [|t ts IH]; intros k; simpl; [auto|].
  destruct (IH (S k)) as [H1 H2]; rewrite H1, H2; auto.
Qed.

(** X27. CohereClient.chat attaches documents exactly when the context is non-empty, numbering them 0, 1, ... with the context texts in order, and sets a preamble exactly when a non-empty system prompt is given. *)
Theorem chat_request_spec (message : string) (context : option (list string)) (model : string)
    (temperature : R) (maxTokens : Z) (pre : option string) :
  let r := Agent.chat_request message context model temperature maxTokens pre in
  (Agent.request_documents r = None <-> context = None \/ context = Some []) /\
  (forall c docs, context = Some c -> Agent.request_documents r = Some docs ->
     map fst docs = seq 0 (List.length c) /\ map snd docs = c) /\
  (Agent.preamble r = None <-> pre = None \/ pre = Some EmptyString) /\
  (forall p, Agent.preamble r = Some p -> pre = Some p /\ p <> EmptyString).
Proof.
  intros r; unfold r, Agent.chat_request; cbn [Agent.request_documents Agent.preamble].
  split; [|split; [|split]].
  - destruct context as [[|t ts]|]; split; try discriminate; auto.
    intros [H|H]; discriminate.
  - intros c docs -> . destruct c as [|t ts]; [discriminate|].
    intros H; injection H as <-. exact (index_docs_spec 0 (t :: ts)).
  - destruct pre as [p|]; [|tauto].
    destruct (String.eqb_spec p EmptyString) as [->|Hp]; [tauto|].
    split; [discriminate|intros [H|H]; congruence].
  - intros p. destruct pre as [p'|]; [|discriminate].
    destruct (String.eqb_spec p' EmptyString) as [->|Hp]; [discriminate|].
    intros H; injection H as <-; auto.
Qed.

Lemma deleteDocument_filter (db : DB) (did : string) :
  NoDup (map Emb.id (embeddings db)) ->
  documents (fst (Proc.deleteDocument db did)) =
    filter (fun d => negb (String.eqb (Doc.id d) did)) (documents db) /\
  embeddings (fst (Proc.deleteDocument db did)) =
    filter (fun e => negb (String.eqb (Emb.documentId e) did)) (embeddings db).
Proof.
  intros Hnd; unfold Proc.deleteDocument; cbn [fst documents embeddings].
  split; [reflexivity|]. rewrite (fold_delete_filter Emb.id).
  apply filter_ext_in; intros x Hx.
  destruct (String.eqb_spec (Emb.documentId x) did) as [Hd|Hd]; simpl.
  - apply not_true_iff_false; rewrite forallb_forall; intros H.
    assert (Hin : In x (embeddings_by_documentId db did)).
    { apply filter_In; split; [exact Hx|apply String.eqb_eq; exact Hd]. }
    specialize (H x Hin); rewrite String.eqb_refl in H; discriminate.
  - apply forallb_forall; intros m Hm.
    apply filter_In in Hm as [Hm Hmd]. apply String.eqb_eq in Hmd.
    apply negb_true_iff, String.eqb_neq; intros E.
    apply Hd; rewrite (NoDup_map_inj _ _ _ _ Hnd Hx Hm E); exact Hmd.
Qed.

Lemma NoDup_map_filter {A B} (f : A -> B) (g : A -> bool) (l : list A) :
  NoDup (map f l) -> NoDup (map f (filter g l)).
Proof.
  induction l as [|x l IH]; simpl; intros H; [constructor|].
  inversion H as [|a b Hn Hnd]; subst. destruct (g x); simpl; [|auto].
  constructor; [|auto]. intros Hin; apply Hn.
  apply in_map_iff in Hin as (y & Hy & Hyin); apply filter_In in Hyin as [Hyin _].
  rewrite <- Hy; apply in_map; exact Hyin.
Qed.

(** X28. deleteDocuments(ids) succeeds and leaves exactly the documents whose id is not in ids and the embedding records whose documentId is not in ids, when embedding record ids are distinct. *)
Theorem deleteDocuments_spec (db : DB) (ids : list string) :
  NoDup (map Emb.id (embeddings db)) ->
  let db' := fst (Batch.deleteDocuments db ids) in
  snd (Batch.deleteDocuments db ids) = Ok tt /\
  documents db' = filter (fun d => negb (existsb (String.eqb (Doc.id d)) ids)) (documents db) /\
  embeddings db' =
    filter (fun e => negb (existsb (String.eqb (Emb.documentId e)) ids)) (embeddings db).
Proof.
  intros Hnd db'. unfold db', Batch.deleteDocuments; clear db'; cbn [fst snd].
  split; [reflexivity|].
  revert db Hnd; induction ids as [|did ids IH]; intros db Hnd; cbn [fold_left].
  - split; symmetry; apply forallb_filter_id, forallb_forall; reflexivity.
  - destruct (deleteDocument_filter db did Hnd) as [Hd He].
    destruct (IH (fst (Proc.deleteDocument db did))) as [IH1 IH2];
      [rewrite He; apply NoDup_map_filter; exact Hnd|].
    rewrite IH1, IH2, Hd, He, !filter_filter_and. split; apply filter_ext; intros x; simpl.
    + destruct (String.eqb (Doc.id x) did), (existsb _ ids); reflexivity.
    + destruct (String.eqb (Emb.documentId x) did), (existsb _ ids); reflexivity.
Qed.

Lemma store_get_put_other {V} (key : V -> string) (v : V) (l : list V) (k : string) :
  key v <> k -> store_get key k (store_put key v l) = store_get key k l.
Proof.
  intros H; unfold store_put. rewrite store_get_insert_other by exact H.
  apply store_get_delete_other; auto.
Qed.

Lemma extract_stage_frame env db d k :
  k <> Doc.id d ->
  store_get Doc.id k (documents (fst (Proc.extract_stage env db d))) =
  store_get Doc.id k (documents db).
Proof.
  intros Hk. destruct (extract_stage_spec env db d) as (_ & [E|[t E]] & _); rewrite E;
    [reflexivity|].
  apply store_get_put_other; simpl; auto.
Qed.

Lemma process_frame env db did uid k :
  k <> did ->
  store_get Doc.id k (documents (fst (Proc.processStoredDocument env db did uid))) =
  store_get Doc.id k (documents db).
Proof.
  intros Hk.
  assert (Hp : store_get Doc.id k (documents (fst (Proc.prepare env db did uid))) =
               store_get Doc.id k (documents db)).
  { rewrite prepare_fst. destruct (Proc.load_document env db did uid) as [d|m] eqn:L;
      [|reflexivity].
    apply load_document_fields in L as (G & _ & _). apply (store_get_key Doc.id) in G.
    apply extract_stage_frame; congruence. }
  pose proof (proj2 (proj2 (prepare_spec env db did uid))) as Hid.
  unfold Proc.processStoredDocument.
  destruct (Proc.prepare env db did uid) as [db1 [[d [mc me]]|m]] eqn:P; simpl in Hp |- *;
    [|exact Hp].
  specialize (Hid d mc me eq_refl).
  unfold Proc.store_stage.
  destruct (Proc.add_all env did uid me mc 0 (embeddings db1) None) as [l [m|]];
    [exact Hp|].
  destruct (Proc.final_update_error env); [exact Hp|]. simpl.
  rewrite store_get_put_other by (simpl; congruence). exact Hp.
Qed.

Lemma process_ok_docid env db did uid db' r :
  Proc.processStoredDocument env db did uid = (db', Ok r) -> Proc.documentId r = did.
Proof.
  unfold Proc.processStoredDocument.
  destruct (Proc.prepare env db did uid) as [db1 [[d [mc me]]|m]]; [|discriminate].
  unfold Proc.store_stage.
  destruct (Proc.add_all env did uid me mc 0 (embeddings db1) None) as [l [m|]];
    [discriminate|].
  destruct (Proc.final_update_error env); [discriminate|].
  intros H; injection H as _ <-; reflexivity.
Qed.

Lemma process_processed_throws env db did uid d :
  store_get Doc.id did (documents db) = Some d -> Doc.userId d = uid -> Doc.processed d = true ->
  exists m, snd (Proc.processStoredDocument env db did uid) = Throw m.
Proof.
  intros G U P. unfold Proc.processStoredDocument, Proc.prepare, Proc.load_document.
  destruct (negb (Proc.client_set env)); [eexists; reflexivity|].
  rewrite G, U, String.eqb_refl, P; simpl; eexists; reflexivity.
Qed.


Lemma processStoredDocuments_loop_spec env uid ids :
  forall i db acc db' rs,
    done_inv db uid (map Proc.documentId acc) ->
    Batch.processStoredDocuments_loop env i ids uid db acc = (db', Ok rs) ->
    map Proc.documentId rs =
      map Proc.documentId acc ++ filter (fun s => negb (String.eqb s EmptyString)) ids /\
    (forall did, In did (map Proc.documentId acc) ->
       ~ In did (filter (fun s => negb (String.eqb s EmptyString)) ids)) /\
    NoDup (filter (fun s => negb (String.eqb s EmptyString)) ids).
Proof.
  induction ids as [|did ids IH]; intros i db acc db' rs Hinv H; simpl in H |- *.
  - injection H as _ <-. rewrite app_nil_r; split; [reflexivity|split; [tauto|constructor]].
  - destruct (String.eqb did EmptyString) eqn:E; simpl.
    + exact (IH _ _ _ _ _ Hinv H).
    + destruct (Proc.processStoredDocument (env i) db did uid) as [db1 [r|m]] eqn:P;
        [|discriminate].
      assert (Hnot : ~ In did (map Proc.documentId acc)).
      { intros Hin. destruct (Hinv did Hin) as (d & G & U & Pd).
        destruct (process_processed_throws (env i) db did uid d G U Pd) as [m Hm].
        rewrite P in Hm; discriminate. }
      assert (Hr : Proc.documentId r = did) by exact (process_ok_docid _ _ _ _ _ _ P).
      assert (Hinv' : done_inv db1 uid (map Proc.documentId (acc ++ [r]))).
      { intros k Hk. rewrite map_app, in_app_iff in Hk; simpl in Hk.
        destruct (String.eqb_spec k did) as [->|Hkd].
        - destruct (process_ok_stored _ _ _ _ _ _ P) as (d & G & U).
          exists (Proc.with_processed d); auto.
        - destruct Hk as [Hk|[Hk|[]]]; [|congruence].
          destruct (Hinv k Hk) as (d & G & U & Pd). exists d; split; [|auto].
          pose proof (process_frame (env i) db did uid k Hkd) as F.
          rewrite P in F; simpl in F; rewrite F; exact G. }
      destruct (IH _ _ _ _ _ Hinv' H) as (H1 & H2 & H3).
      rewrite map_app in H1, H2; simpl in H1, H2. rewrite Hr in H1, H2.
      split; [rewrite H1, <- app_assoc; reflexivity|split].
      * intros k Hk [<-|Hk']; [contradiction|].
        apply (H2 k); [apply in_or_app; left; exact Hk|exact Hk'].
      * constructor; [|exact H3]. intros Hin; apply (H2 did); [apply in_or_app; right; left; reflexivity|exact Hin].
Qed.

(** X29. A successful processStoredDocuments returns one result per non-empty id of the list, in the list's order; so it succeeds only when the non-empty ids are distinct, since a repeated id fails as already processed. *)
Theorem processStoredDocuments_spec (env : nat -> Proc.Env) (ids : list string) (uid : string)
    (db db' : DB) (rs : list Proc.ProcessingResult) :
  Batch.processStoredDocuments env ids uid db = (db', Ok rs) ->
  map Proc.documentId rs = filter (fun s => negb (String.eqb s EmptyString)) ids /\
  NoDup (map Proc.documentId rs).
Proof.
  intros H. unfold Batch.processStoredDocuments in H.
  destruct (processStoredDocuments_loop_spec env uid ids 0 db [] db' rs) as (H1 & _ & H3);
    [intros k []|exact H|].
  simpl in H1; rewrite H1; split; [reflexivity|exact H3].
Qed.

(** ** Instances of the properties above *)

Lemma search_sample_q :
  search sample_db [1; 0] "owner-A" 15 (35/100) = Ok [sample_result].
Proof.
  rewrite search_unfold by discriminate.
  cbn -[VectorStore.cosineSimilarity Merge.ge_threshold].
  rewrite cos_store_10; cbn -[Merge.ge_threshold].
  replace (Merge.ge_threshold 1 (35/100)) with true
    by (symmetry; apply ge_threshold_true; lra).
  reflexivity.
Qed.

Lemma store_keys_unique_witness :
  NoDup (map Doc.id (documents db_blank)) /\
  NoDup (map Doc.id (store_put Doc.id (Proc.with_processed doc_blank) (documents db_blank))).
Proof.
  assert (H : NoDup (map Doc.id (documents db_blank))).
  { cbn. constructor; [intros [H|[]]; discriminate|constructor; [intros []|constructor]]. }
  split; [exact H|].
  exact (proj1 (proj2 (store_keys_unique Doc.id (documents db_blank) H))
           (Proc.with_processed doc_blank)).
Defined.

Lemma upload_then_load_witness :
  Upload.uploadDocument "doc-2"%string 5%Z file_u "user-a"%string db_c =
    (mkDB [doc_c; doc_u] [], Ok (Upload.mkUploadResult "doc-2" "manual.pdf" 3 false)) /\
  Proc.load_document env_ok (mkDB [doc_c; doc_u] []) "doc-2"%string "user-a"%string =
    Ok doc_u.
Proof.
  assert (U : Upload.uploadDocument "doc-2"%string 5%Z file_u "user-a"%string db_c =
    (mkDB [doc_c; doc_u] [], Ok (Upload.mkUploadResult "doc-2" "manual.pdf" 3 false)))
    by reflexivity.
  split; [exact U|].
  exact (proj1 (proj2 (proj2 (upload_then_load "doc-2"%string 5%Z file_u "user-a"%string
           db_c _ _ env_ok U eq_refl)))).
Defined.

Lemma upload_existing_id_witness :
  In "doc-1"%string (map Doc.id (documents db_c)) /\
  Upload.uploadDocument "doc-1"%string 5%Z file_u "user-a"%string db_c =
    (db_c, Throw "ConstraintError"%string).
Proof.
  assert (H : In "doc-1"%string (map Doc.id (documents db_c))) by (left; reflexivity).
  split; [exact H|exact (upload_existing_id "doc-1"%string 5%Z file_u "user-a"%string db_c H)].
Defined.

Lemma chunkText_chunks_trimmed_witness :
  Chunk.chunkText_fuel 20 " ab  cd  ef " 4%Z 1%Z false =
    Some ["ab"; "cd"; "d  e"; "ef"]%string /\
  Forall (fun c => c <> EmptyString /\ trim c = c) ["ab"; "cd"; "d  e"; "ef"]%string.
Proof.
  assert (H : Chunk.chunkText_fuel 20 " ab  cd  ef " 4%Z 1%Z false =
    Some ["ab"; "cd"; "d  e"; "ef"]%string) by (vm_compute; reflexivity).
  split; [exact H|exact (chunkText_chunks_trimmed 20 _ 4%Z 1%Z _ H)].
Defined.

Lemma chunkText_blank_witness :
  all_ws "    " = true /\ Chunk.chunkText_fuel 20 "    " 2%Z 5%Z false = Some [] /\
  ([] : list string) = [].
Proof.
  assert (H1 : all_ws "    " = true) by reflexivity.
  assert (H2 : Chunk.chunkText_fuel 20 "    " 2%Z 5%Z false = Some []) by (vm_compute; reflexivity).
  split; [exact H1|split; [exact H2|exact (chunkText_blank 20 _ 2%Z 5%Z [] H1 H2)]].
Defined.

Lemma chunkText_short_witness :
  (Chunk.js_len " ab " <= 10)%Z /\
  Chunk.chunkText_fuel 5 " ab " 10%Z 3%Z false = Some ["ab"%string].
Proof.
  assert (H : (Chunk.js_len " ab " <= 10)%Z) by (vm_compute; discriminate).
  split; [exact H|exact (chunkText_short 4 " ab " 10%Z 3%Z H)].
Defined.

Lemma embed_batches_pointwise_witness :
  (forall b, b <> [] -> (List.length b <= 90)%nat ->
     Proc.embed env_ok b = Ok (map (fun _ => [1; 0]) b)) /\
  Proc.embed_batches env_ok (List.length (repeat "a"%string 200)) (repeat "a"%string 200) =
    Ok (map (fun _ => [1; 0]) (repeat "a"%string 200)).
Proof.
  assert (H : forall b, b <> [] -> (List.length b <= 90)%nat ->
     Proc.embed env_ok b = Ok (map (fun _ => [1; 0]) b)) by (intros; reflexivity).
  split; [exact H|exact (embed_batches_pointwise env_ok _ (repeat "a"%string 200) H)].
Defined.

Lemma process_blank_document_witness :
  Proc.load_document env_ok db_blank "doc-2"%string "user-a"%string = Ok doc_blank /\
  Proc.processStoredDocument env_ok db_blank "doc-2"%string "user-a"%string =
    (db_blank_done, Ok (Proc.mkProcessingResult "doc-2" "blank.txt" 0 0)).
Proof.
  assert (H : Proc.load_document env_ok db_blank "doc-2"%string "user-a"%string = Ok doc_blank)
    by reflexivity.
  assert (T : Doc.textContent doc_blank <> EmptyString) by discriminate.
  split; [exact H|].
  exact (process_blank_document env_ok db_blank "doc-2"%string "user-a"%string doc_blank
           H T eq_refl eq_refl eq_refl).
Defined.

Lemma process_twice_witness :
  Proc.processStoredDocument env_ok db_blank "doc-2"%string "user-a"%string =
    (db_blank_done, Ok (Proc.mkProcessingResult "doc-2" "blank.txt" 0 0)) /\
  Proc.processStoredDocument env_ok db_blank_done "doc-2"%string "user-a"%string =
    (db_blank_done, Throw "Document already processed"%string).
Proof.
  assert (H : Proc.processStoredDocument env_ok db_blank "doc-2"%string "user-a"%string =
    (db_blank_done, Ok (Proc.mkProcessingResult "doc-2" "blank.txt" 0 0))) by reflexivity.
  split; [exact H|].
  exact (process_twice env_ok env_ok db_blank db_blank_done "doc-2"%string "user-a"%string _
           H eq_refl).
Defined.

Lemma multiSearch_spec_witness :
  VS.multiSearch sample_db [[1; 0]; [1; 0]] "owner-A"%string 5%Z (1/2) = Ok [sample_result] /\
  NoDup (map SR.id [sample_result]).
Proof.
  assert (H : VS.multiSearch sample_db [[1; 0]; [1; 0]] "owner-A"%string 5%Z (1/2) =
    Ok [sample_result]).
  { unfold VS.multiSearch. cbn [VS.collect]. rewrite search_sample. reflexivity. }
  split; [exact H|exact (proj1 (multiSearch_spec _ _ _ _ _ _ H))].
Defined.

Lemma getChatHistory_recent_witness :
  (0 < 1)%Z /\
  List.length (History.getChatHistory hist_u "user-a"%string (Some 1%Z)) =
    Nat.min (Z.to_nat 1) (List.length (History.messages_by_userId hist_u "user-a"%string)).
Proof.
  assert (H : (0 < 1)%Z) by lia.
  split; [exact H|].
  pose proof (getChatHistory_recent hist_u "user-a"%string 1%Z H) as G.
  cbv zeta in G. destruct G as (_ & _ & _ & G & _). exact G.
Defined.

Lemma clearHistory_spec_witness :
  NoDup (map Agent.id hist_u) /\
  History.clearHistory hist_u "user-a"%string =
    [Agent.mkChatMessage "msg-b" "user-b" Agent.user "Belt?" 2 None].
Proof.
  assert (H : NoDup (map Agent.id hist_u)).
  { cbn. constructor; [intros [H|[H|[]]]; discriminate|].
    constructor; [intros [H|[]]; discriminate|constructor; [intros []|constructor]]. }
  split; [exact H|exact (clearHistory_spec hist_u "user-a"%string H)].
Defined.

Lemma processQuery_without_rag_witness :
  Agent.useRAG cfg_norag = false /\
  Agent.processQuery env_q cfg_norag "user-a"%string db_c [] "Pump?"%string =
    (hist_q, Ok (Agent.mkAgentResponse "Check the pump seals." None None)) /\
  Agent.request_documents
    (Agent.chat_request "Pump?" None "command-a-03-2025" (Agent.cfg_temperature cfg_norag)
       (Agent.maxTokens cfg_norag) (Agent.systemPrompt cfg_norag)) = None.
Proof.
  assert (H1 : Agent.useRAG cfg_norag = false) by reflexivity.
  assert (H2 : Agent.processQuery env_q cfg_norag "user-a"%string db_c [] "Pump?"%string =
    (hist_q, Ok (Agent.mkAgentResponse "Check the pump seals." None None))) by reflexivity.
  split; [exact H1|split; [exact H2|]].
  exact (proj2 (proj2 (proj2 (processQuery_without_rag env_q cfg_norag "user-a"%string db_c
           [] hist_q "Pump?"%string _ H1 H2)))).
Defined.

Lemma retrieveContext_spec_witness :
  Agent.retrieveContext env_q cfg_q sample_db "owner-A"%string "pump?"%string =
    Ok (["The pump requires oil change every 500 hours."%string], ["d1"%string]) /\
  NoDup ["d1"%string].
Proof.
  assert (H : Agent.retrieveContext env_q cfg_q sample_db "owner-A"%string "pump?"%string =
    Ok (["The pump requires oil change every 500 hours."%string], ["d1"%string])).
  { unfold Agent.retrieveContext. cbn -[search]. rewrite search_sample_q. reflexivity. }
  split; [exact H|exact (proj1 (retrieveContext_spec _ _ _ _ _ _ _ H))].
Defined.

Lemma deleteDocuments_spec_witness :
  NoDup (map Emb.id (embeddings db_del)) /\
  embeddings (fst (Batch.deleteDocuments db_del ["doc-1"%string])) = [].
Proof.
  assert (H : NoDup (map Emb.id (embeddings db_del))).
  { cbn. constructor; [intros []|constructor]. }
  split; [exact H|].
  pose proof (deleteDocuments_spec db_del ["doc-1"%string] H) as G.
  cbv zeta in G. exact (proj2 (proj2 G)).
Defined.

Lemma processStoredDocuments_spec_witness :
  Batch.processStoredDocuments (fun _ => env_ok) ["doc-2"; ""]%string "user-a"%string db_blank =
    (db_blank_done, Ok [Proc.mkProcessingResult "doc-2" "blank.txt" 0 0]) /\
  map Proc.documentId [Proc.mkProcessingResult "doc-2" "blank.txt" 0 0] = ["doc-2"%string].
Proof.
  assert (H : Batch.processStoredDocuments (fun _ => env_ok) ["doc-2"; ""]%string
    "user-a"%string db_blank =
    (db_blank_done, Ok [Proc.mkProcessingResult "doc-2" "blank.txt" 0 0])) by reflexivity.
  split; [exact H|exact (proj1 (processStoredDocuments_spec _ _ _ _ _ _ H))].
Defined.
